(** * Habit-scheduling domain model and invariant validators

    A shallow embedding of the schema module of the habit tracker
    (enumerations, entity records, type guards, validation functions and
    the default preference table), followed by the properties its
    specification states about them. *)

From Stdlib Require Import Bool List ZArith QArith Qround String Ascii.
From Stdlib Require Import Permutation Lia.
From Stdlib Require Floats.SpecFloat.
Import ListNotations.

Local Open Scope Z_scope.

(* ======================================================================== *)
(** * Part I: the program *)
(* ======================================================================== *)

(* ------------------------------------------------------------------------ *)
(** ** JavaScript values *)
(* ------------------------------------------------------------------------ *)

(** The value space of the [number] type as far as the schema module
    observes it: the not-a-number value, the two infinities and the finite
    values.  A finite double is a rational, and the guards only compare
    numbers and test them for integrality, both of which are exact on
    doubles, so a finite value is carried by its rational value.  The two
    zeros are not distinguished: no operation used here tells them apart. *)
Module JsNumber.

Inductive number : Type :=
| NaN : number
| Infinity (negative : bool) : number
| Finite (q : Q) : number.

Definition of_Z (z : Z) : number := Finite (inject_Z z).

(** [a <= b]: false as soon as one side is NaN. *)
Definition le (a b : number) : bool :=
  match a, b with
  | NaN, _ | _, NaN => false
  | Infinity true, _ => true
  | _, Infinity false => true
  | Infinity false, _ => false
  | _, Infinity true => false
  | Finite p, Finite q => Qle_bool p q
  end.

(** [a >= b] *)
Definition ge (a b : number) : bool := le b a.

(** [a === b] on two numbers: NaN differs from everything. *)
Definition strict_eq (a b : number) : bool :=
  match a, b with
  | Finite p, Finite q => Qeq_bool p q
  | Infinity s, Infinity t => Bool.eqb s t
  | _, _ => false
  end.

(** [Number.isInteger]: finite and without fractional part. *)
Definition isInteger (a : number) : bool :=
  match a with
  | Finite q => Qeq_bool q (inject_Z (Qfloor q))
  | _ => false
  end.

(** The number denotes the mathematical integer [z]. *)
Definition is_int (a : number) (z : Z) : Prop :=
  match a with
  | Finite q => (q == inject_Z z)%Q
  | _ => False
  end.

(** [lo <= a <= hi], the reading of a bound written [[lo, hi]]. *)
Definition within (lo hi : Q) (a : number) : bool :=
  le (Finite lo) a && le a (Finite hi).

End JsNumber.

(** Arithmetic of [number] on integer values.  A double carries 53
    significant bits, so an integer of magnitude up to [2 ^ 53] is a double
    and a larger one is a double only when its low bits are zero; the
    result of an operation is the double nearest to the exact result, a tie
    going to the even significand, and is infinite beyond the largest
    double. *)
Module JsInteger.

(** Significant bits of a double, and the exponent at which it
    overflows. *)
Definition prec : Z := 53.
Definition emax : Z := 1024.

(** The nearest integer with at most 53 significant bits: [x] itself
    when it has no more, else [x] with its [k] extra low bits rounded
    off. *)
Definition round (x : Z) : Z :=
  let a := Z.abs x in
  let k := Z.log2 a + 1 - prec in
  if k <=? 0 then x
  else
    let q := Z.shiftr a k in
    let r := a - Z.shiftl q k in
    let half := Z.shiftl 1 (k - 1) in
    let q' :=
      if (half <? r) || ((r =? half) && Z.odd q) then q + 1 else q in
    Z.sgn x * Z.shiftl q' k.

(** [a - b] on two integer-valued numbers. *)
Definition sub (a b : Z) : JsNumber.number :=
  let r := round (a - b) in
  if 2 ^ emax <=? Z.abs r then JsNumber.Infinity (r <? 0)
  else JsNumber.of_Z r.

(** The same subtraction computed by the IEEE 754 operations of the
    Standard Library, for comparison: [of_Z] rounds an integer to a double
    and [to_number] reads a double that holds an integer. *)
Definition of_Z (x : Z) : SpecFloat.spec_float :=
  SpecFloat.binary_normalize prec emax x 0 false.

Definition to_number (f : SpecFloat.spec_float) : JsNumber.number :=
  match f with
  | SpecFloat.S754_zero _ => JsNumber.of_Z 0
  | SpecFloat.S754_infinity s => JsNumber.Infinity s
  | SpecFloat.S754_nan => JsNumber.NaN
  | SpecFloat.S754_finite s m e =>
      let v := if s then Z.neg m else Z.pos m in
      if 0 <=? e then JsNumber.of_Z (Z.shiftl v e)
      else JsNumber.Finite (Qmake v (Pos.shiftl 1 (Z.to_N (- e))))
  end.

Definition sub_IEEE (a b : Z) : JsNumber.number :=
  to_number (SpecFloat.SFsub prec emax (of_Z a) (of_Z b)).

(** Integers on both sides of the places where rounding sets in. *)
Definition samples : list Z :=
  [0; 1; -1; 2; 15; 25; 30; 480; 510; 1439;
   2 ^ 52; 2 ^ 52 + 1; 2 ^ 53 - 1; 2 ^ 53; - 2 ^ 53; 2 ^ 53 + 2;
   2 ^ 53 + 4; 2 ^ 54; 2 ^ 54 + 4; 2 ^ 60; 2 ^ 1023; - 2 ^ 1023;
   2 ^ 1024 - 2 ^ 971].

End JsInteger.

(** A property of an object that may be missing: reading it then gives
    [undefined]. *)
Inductive optional (A : Type) : Type :=
| undefined : optional A
| defined (a : A) : optional A.

Arguments undefined {A}.
Arguments defined {A} a.

(* ------------------------------------------------------------------------ *)
(** ** Enumerations *)
(* ------------------------------------------------------------------------ *)

(** A string enum is its set of members together with the string each one
    is at run time; a numeric enum likewise with a number. *)

Module TimeWindow.

Inductive t : Type :=
| EARLY_MORNING (* 06:00-09:00 *)
| MORNING       (* 09:00-12:00 *)
| AFTERNOON     (* 12:00-17:00 *)
| EVENING       (* 17:00-21:00 *)
| NIGHT         (* 21:00-23:59 *)
| ANY.          (* 06:00-23:59 *)

Definition value (w : t) : string :=
  match w with
  | EARLY_MORNING => "EARLY_MORNING"
  | MORNING => "MORNING"
  | AFTERNOON => "AFTERNOON"
  | EVENING => "EVENING"
  | NIGHT => "NIGHT"
  | ANY => "ANY"
  end.

Definition members : list t :=
  [EARLY_MORNING; MORNING; AFTERNOON; EVENING; NIGHT; ANY].

(** Equality of two members as the run time sees it: they are strings. *)
Definition eqb (a b : t) : bool := String.eqb (value a) (value b).

End TimeWindow.

Module QualityRating.

Inductive t : Type := FAIL | HARD | GOOD | EASY.

Definition value (r : t) : Z :=
  match r with FAIL => 0 | HARD => 1 | GOOD => 2 | EASY => 3 end.

Definition members : list t := [FAIL; HARD; GOOD; EASY].

End QualityRating.

Module IntegrationMethod.

Inductive t : Type := EULER | RK4.

Definition value (m : t) : string :=
  match m with EULER => "Euler" | RK4 => "RK4" end.

Definition members : list t := [EULER; RK4].

End IntegrationMethod.

Module NotificationChannel.

Inductive t : Type := EMAIL | PUSH | IN_APP.

Definition value (c : t) : string :=
  match c with EMAIL => "email" | PUSH => "push" | IN_APP => "in-app" end.

Definition members : list t := [EMAIL; PUSH; IN_APP].

End NotificationChannel.

Module DayOfWeek.

Inductive t : Type :=
| SUNDAY | MONDAY | TUESDAY | WEDNESDAY | THURSDAY | FRIDAY | SATURDAY.

Definition value (d : t) : Z :=
  match d with
  | SUNDAY => 0 | MONDAY => 1 | TUESDAY => 2 | WEDNESDAY => 3
  | THURSDAY => 4 | FRIDAY => 5 | SATURDAY => 6
  end.

Definition members : list t :=
  [SUNDAY; MONDAY; TUESDAY; WEDNESDAY; THURSDAY; FRIDAY; SATURDAY].

End DayOfWeek.

(* ------------------------------------------------------------------------ *)
(** ** User preferences schema *)
(* ------------------------------------------------------------------------ *)

(** The literal type [5 | 15 | 30]. *)
Module Granularity.

Inductive t : Type := G5 | G15 | G30.

Definition minutes (g : t) : Z :=
  match g with G5 => 5 | G15 => 15 | G30 => 30 end.

End Granularity.

Module SchedulingPreferences.
Record t : Type := mk {
  dailyStartTime : string;              (* HH:mm format *)
  dailyEndTime : string;                (* HH:mm format *)
  timeSlotGranularity : Granularity.t;  (* minutes *)
}.
End SchedulingPreferences.

Module PredictionPreferences.
Record t : Type := mk {
  coldStartThreshold : JsNumber.number; (* days; [1, 30] *)
  recentWindowSize : JsNumber.number;   (* days; [3, 30] *)
  riskThreshold : JsNumber.number;      (* [0.0, 1.0] *)
}.
End PredictionPreferences.

Module AdaptiveFrequencyPreferences.
Record t : Type := mk {
  enableSM2 : bool;
  minInterval : JsNumber.number;        (* days; [1, 7] *)
  maxInterval : JsNumber.number;        (* days; [7, 365] *)
}.
End AdaptiveFrequencyPreferences.

Module SimulationPreferences.
Record t : Type := mk {
  enabled : bool;
  integrationMethod : IntegrationMethod.t;
  timeStep : JsNumber.number;           (* seconds; [0.01, 0.2] *)
}.
End SimulationPreferences.

Module NotificationPreferences.
Record t : Type := mk {
  enableInterventionAlerts : bool;
  alertThreshold : JsNumber.number;     (* [0.0, 1.0] *)
  channels : list NotificationChannel.t;
}.
End NotificationPreferences.

Module UserPreferences.
Record t : Type := mk {
  scheduling : SchedulingPreferences.t;
  prediction : PredictionPreferences.t;
  adaptiveFrequency : AdaptiveFrequencyPreferences.t;
  simulation : SimulationPreferences.t;
  notifications : NotificationPreferences.t;
}.
End UserPreferences.

(* ------------------------------------------------------------------------ *)
(** ** Core domain objects *)
(* ------------------------------------------------------------------------ *)

(** Times of day and durations are minute counts: integer-valued numbers.
    They are kept as [Z], on which the comparisons of [number] are exact;
    their subtraction rounds as that of [number] does, see [JsInteger].
    Every other [number] field is a [JsNumber.number]. *)

(** The literal type [1 | 2 | 3 | 4 | 5]. *)
Inductive Level : Type := L1 | L2 | L3 | L4 | L5.

Module Habit.
Record t : Type := mk {
  habitID : string;
  userID : string;
  name : string;
  duration : Z;                         (* minutes; [5, 240]; multiple of 5 *)
  priority : Level;
  difficulty : Level;
  preferredTimeWindows : list TimeWindow.t;
  easinessFactor : JsNumber.number;     (* [1.3, 3.0] *)
  interval : JsNumber.number;           (* days; [1, 365] *)
  repetitions : JsNumber.number;
  streak : JsNumber.number;
  createdDate : string;
}.
End Habit.

Module CheckIn.
Record t : Type := mk {
  checkInID : string;
  habitID : string;
  date : string;
  success : bool;                       (* true=completed, false=missed *)
  qualityRating : option QualityRating.t; (* null if success=false *)
  timestamp : string;
}.
End CheckIn.

(** What a [qualityRating] property holds at run time when it is present:
    [null] or a number. *)
Inductive rating_value : Type :=
| null : rating_value
| num (n : JsNumber.number) : rating_value.

(** [Partial<CheckIn>]: every property may be missing. *)
Module PartialCheckIn.
Record t : Type := mk {
  checkInID : optional string;
  habitID : optional string;
  date : optional string;
  success : optional bool;
  qualityRating : optional rating_value;
  timestamp : optional string;
}.
End PartialCheckIn.

(** A complete [CheckIn] seen as a [Partial<CheckIn>]: all properties are
    present and a quality rating is the number of its enum member. *)
Definition rating_to_value (r : option QualityRating.t) : rating_value :=
  match r with
  | None => null
  | Some q => num (JsNumber.of_Z (QualityRating.value q))
  end.

Definition CheckIn_as_partial (c : CheckIn.t) : PartialCheckIn.t :=
  {| PartialCheckIn.checkInID := defined (CheckIn.checkInID c);
     PartialCheckIn.habitID := defined (CheckIn.habitID c);
     PartialCheckIn.date := defined (CheckIn.date c);
     PartialCheckIn.success := defined (CheckIn.success c);
     PartialCheckIn.qualityRating :=
       defined (rating_to_value (CheckIn.qualityRating c));
     PartialCheckIn.timestamp := defined (CheckIn.timestamp c) |}.

Module ScheduledSlot.
Record t : Type := mk {
  slotID : string;
  scheduleID : string;
  habitID : string;
  startTime : Z;                        (* minutes since midnight *)
  endTime : Z;                          (* minutes since midnight *)
}.
End ScheduledSlot.

Module Schedule.
Record t : Type := mk {
  scheduleID : string;
  userID : string;
  date : string;
  slots : list ScheduledSlot.t;         (* Max 50 slots *)
  generatedTimestamp : string;
}.
End Schedule.

(* ------------------------------------------------------------------------ *)
(** ** Type guards *)
(* ------------------------------------------------------------------------ *)

Module Guards.

Import JsNumber.

(** [Array.prototype.includes] on an array of strings. *)
Definition includes (xs : list string) (x : string) : bool :=
  existsb (fun y => String.eqb y x) xs.

(** [Object.values] of a string enum: the strings of its members, in
    declaration order. *)
Definition Object_values {E : Type} (value : E -> string) (members : list E)
  : list string := map value members.

Definition isTimeWindow (value : string) : bool :=
  includes (Object_values TimeWindow.value TimeWindow.members) value.

Definition isQualityRating (value : number) : bool :=
  ge value (of_Z 0) && le value (of_Z 3) && isInteger value.

Definition isIntegrationMethod (value : string) : bool :=
  String.eqb value "Euler" || String.eqb value "RK4".

Definition isNotificationChannel (value : string) : bool :=
  includes (Object_values NotificationChannel.value NotificationChannel.members)
    value.

Definition isDayOfWeek (value : number) : bool :=
  ge value (of_Z 0) && le value (of_Z 6) && isInteger value.

End Guards.

(* ------------------------------------------------------------------------ *)
(** ** Validation functions *)
(* ------------------------------------------------------------------------ *)

Module Validators.

Import JsNumber.

(** A [Set] of time windows: its elements in insertion order.  Adding an
    element that is already there leaves the set as it is. *)
Definition Set_has (s : list TimeWindow.t) (x : TimeWindow.t) : bool :=
  existsb (fun y => TimeWindow.eqb y x) s.

Definition Set_add (s : list TimeWindow.t) (x : TimeWindow.t)
  : list TimeWindow.t :=
  if Set_has s x then s else s ++ [x].

(** [new Set(windows)] adds the elements of the array from left to right. *)
Definition new_Set (windows : list TimeWindow.t) : list TimeWindow.t :=
  fold_left Set_add windows [].

(** [Array.from(set)] lists the set in insertion order. *)
Definition Array_from (s : list TimeWindow.t) : list TimeWindow.t := s.

(** [Array.prototype.includes] on an array of time windows. *)
Definition includes (xs : list TimeWindow.t) (x : TimeWindow.t) : bool :=
  existsb (fun y => TimeWindow.eqb y x) xs.

Definition validateTimeWindow (windows : list TimeWindow.t)
  : list TimeWindow.t :=
  if (List.length windows =? 0)%nat then [TimeWindow.ANY]
  else
    (* Remove duplicates *)
    let unique := Array_from (new_Set windows) in
    (* "ANY" overrides all other values *)
    if includes unique TimeWindow.ANY then [TimeWindow.ANY]
    else unique.

Definition validateCheckIn (checkIn : PartialCheckIn.t) : bool :=
  match PartialCheckIn.success checkIn with
  | defined false =>
      (* qualityRating === null || qualityRating === QualityRating.FAIL *)
      match PartialCheckIn.qualityRating checkIn with
      | defined null => true
      | defined (num n) =>
          strict_eq n (of_Z (QualityRating.value QualityRating.FAIL))
      | undefined => false
      end
  | defined true =>
      (* typeof qualityRating === "number" *)
      match PartialCheckIn.qualityRating checkIn with
      | defined (num n) => ge n (of_Z 1) && le n (of_Z 3)
      | _ => false
      end
  | undefined => false
  end.

Definition validateSlotDuration (slot : ScheduledSlot.t) (habit : Habit.t)
  : bool :=
  strict_eq
    (JsInteger.sub (ScheduledSlot.endTime slot) (ScheduledSlot.startTime slot))
    (of_Z (Habit.duration habit)).

(** The test of the loop body:
    [s1.endTime <= s2.startTime || s2.endTime <= s1.startTime]. *)
Definition noOverlap (s1 s2 : ScheduledSlot.t) : bool :=
  (ScheduledSlot.endTime s1 <=? ScheduledSlot.startTime s2)
  || (ScheduledSlot.endTime s2 <=? ScheduledSlot.startTime s1).

(** The inner loop [for (j = ...; j < slots.length; j++)], entered at index
    [j] with [n = slots.length - j] iterations left.  [Some false] is the
    early [return false], [Some true] the normal end of the loop, and [None]
    the [TypeError] of reading a property of an element that is not there. *)
Fixpoint inner_loop (slots : list ScheduledSlot.t) (i j n : nat)
  : option bool :=
  match n with
  | O => Some true
  | S n' =>
      match nth_error slots i, nth_error slots j with
      | Some s1, Some s2 =>
          if negb (noOverlap s1 s2) then Some false
          else inner_loop slots i (S j) n'
      | _, _ => None
      end
  end.

(** The outer loop [for (i = ...; i < slots.length; i++)], entered at index
    [i] with [n = slots.length - i] iterations left. *)
Fixpoint outer_loop (slots : list ScheduledSlot.t) (i n : nat)
  : option bool :=
  match n with
  | O => Some true
  | S n' =>
      match inner_loop slots i (S i) (List.length slots - S i) with
      | Some true => outer_loop slots (S i) n'
      | r => r
      end
  end.

Definition validateNoSlotOverlap (slots : list ScheduledSlot.t)
  : option bool :=
  outer_loop slots 0 (List.length slots).

End Validators.

(* ------------------------------------------------------------------------ *)
(** ** Default values *)
(* ------------------------------------------------------------------------ *)

Module Defaults.

Import JsNumber.

Definition DEFAULT_USER_PREFERENCES : UserPreferences.t :=
  {| UserPreferences.scheduling :=
       {| SchedulingPreferences.dailyStartTime := "06:00";
          SchedulingPreferences.dailyEndTime := "23:00";
          SchedulingPreferences.timeSlotGranularity := Granularity.G15 |};
     UserPreferences.prediction :=
       {| PredictionPreferences.coldStartThreshold := of_Z 7;
          PredictionPreferences.recentWindowSize := of_Z 7;
          PredictionPreferences.riskThreshold := Finite 0.8 |};
     UserPreferences.adaptiveFrequency :=
       {| AdaptiveFrequencyPreferences.enableSM2 := true;
          AdaptiveFrequencyPreferences.minInterval := of_Z 1;
          AdaptiveFrequencyPreferences.maxInterval := of_Z 90 |};
     UserPreferences.simulation :=
       {| SimulationPreferences.enabled := false;
          SimulationPreferences.integrationMethod := IntegrationMethod.EULER;
          SimulationPreferences.timeStep := Finite 0.05 |};
     UserPreferences.notifications :=
       {| NotificationPreferences.enableInterventionAlerts := true;
          NotificationPreferences.alertThreshold := Finite 0.8;
          NotificationPreferences.channels := [NotificationChannel.IN_APP] |}
  |}.

End Defaults.

(* ------------------------------------------------------------------------ *)
(** ** Documented bounds of the preference fields *)
(* ------------------------------------------------------------------------ *)

(** The bounds that the schema writes next to each preference field, as
    executable checks.  Fields of an enum or literal type are bounded by
    their type. *)
Module Bounds.

Import JsNumber.

Definition digit_value (c : ascii) : option nat :=
  let n := nat_of_ascii c in
  if ((48 <=? n) && (n <=? 57))%nat then Some (n - 48)%nat else None.

(** [HH:mm]: two digits of an hour, a colon, two digits of a minute. *)
Definition isTimeFormat (s : string) : bool :=
  match s with
  | String h1 (String h2 (String c (String m1 (String m2 EmptyString)))) =>
      match digit_value h1, digit_value h2, digit_value m1, digit_value m2 with
      | Some a, Some b, Some x, Some y =>
          (Ascii.eqb c ":" && (10 * a + b <? 24) && (10 * x + y <? 60))%nat
      | _, _, _, _ => false
      end
  | _ => false
  end.

Definition coldStartThreshold_ok : number -> bool := within 1 30.
Definition recentWindowSize_ok : number -> bool := within 3 30.
Definition riskThreshold_ok : number -> bool := within 0 1.
Definition minInterval_ok : number -> bool := within 1 7.
Definition maxInterval_ok : number -> bool := within 7 365.
Definition timeStep_ok : number -> bool := within 0.01 0.2.
Definition alertThreshold_ok : number -> bool := within 0 1.

Definition scheduling_ok (s : SchedulingPreferences.t) : bool :=
  isTimeFormat (SchedulingPreferences.dailyStartTime s)
  && isTimeFormat (SchedulingPreferences.dailyEndTime s).

Definition prediction_ok (p : PredictionPreferences.t) : bool :=
  coldStartThreshold_ok (PredictionPreferences.coldStartThreshold p)
  && recentWindowSize_ok (PredictionPreferences.recentWindowSize p)
  && riskThreshold_ok (PredictionPreferences.riskThreshold p).

Definition adaptiveFrequency_ok (a : AdaptiveFrequencyPreferences.t) : bool :=
  minInterval_ok (AdaptiveFrequencyPreferences.minInterval a)
  && maxInterval_ok (AdaptiveFrequencyPreferences.maxInterval a).

Definition simulation_ok (s : SimulationPreferences.t) : bool :=
  timeStep_ok (SimulationPreferences.timeStep s).

Definition notifications_ok (n : NotificationPreferences.t) : bool :=
  alertThreshold_ok (NotificationPreferences.alertThreshold n).

Definition within_bounds (u : UserPreferences.t) : bool :=
  scheduling_ok (UserPreferences.scheduling u)
  && prediction_ok (UserPreferences.prediction u)
  && adaptiveFrequency_ok (UserPreferences.adaptiveFrequency u)
  && simulation_ok (UserPreferences.simulation u)
  && notifications_ok (UserPreferences.notifications u).

End Bounds.

(* ------------------------------------------------------------------------ *)
(** ** Preference resolution *)
(* ------------------------------------------------------------------------ *)

(** The schema module holds the default table only; the function that
    merges a caller's partial preferences with it is described by the
    specification and is modelled here from that description. *)
Module Resolver.

























End Resolver.

(* ------------------------------------------------------------------------ *)
(** ** Vocabulary of the specification *)
(* ------------------------------------------------------------------------ *)

Module SlotSpec.

(** The minute [m] lies in the half-open interval [[startTime, endTime)]. *)
Definition covers (s : ScheduledSlot.t) (m : Z) : Prop :=
  ScheduledSlot.startTime s <= m < ScheduledSlot.endTime s.

(** Two half-open intervals intersect: they share a minute. *)
Definition intersect (s1 s2 : ScheduledSlot.t) : Prop :=
  exists m, covers s1 m /\ covers s2 m.

(** No two slots at distinct positions of the collection intersect. *)
Definition pairwise_disjoint (slots : list ScheduledSlot.t) : Prop :=
  forall i j s1 s2,
    i <> j ->
    nth_error slots i = Some s1 ->
    nth_error slots j = Some s2 ->
    ~ intersect s1 s2.

(** The slot spans at least one minute. *)
Definition nonempty (s : ScheduledSlot.t) : Prop :=
  ScheduledSlot.startTime s < ScheduledSlot.endTime s.

(** A slot with only its interval filled in. *)
Definition slot (startTime endTime : Z) : ScheduledSlot.t :=
  {| ScheduledSlot.slotID := "";
     ScheduledSlot.scheduleID := "";
     ScheduledSlot.habitID := "";
     ScheduledSlot.startTime := startTime;
     ScheduledSlot.endTime := endTime |}.


(** The double loop of [validateNoSlotOverlap] read off the list: every
    slot is tested against each slot after it. *)
Fixpoint all_pairs_ok (slots : list ScheduledSlot.t) : bool :=
  match slots with
  | [] => true
  | s1 :: rest => forallb (Validators.noOverlap s1) rest && all_pairs_ok rest
  end.

(** A habit with only its duration filled in. *)
Definition habit (duration : Z) : Habit.t :=
  {| Habit.habitID := "";
     Habit.userID := "";
     Habit.name := "";
     Habit.duration := duration;
     Habit.priority := L1;
     Habit.difficulty := L1;
     Habit.preferredTimeWindows := [];
     Habit.easinessFactor := JsNumber.Finite 2.5;
     Habit.interval := JsNumber.of_Z 1;
     Habit.repetitions := JsNumber.of_Z 0;
     Habit.streak := JsNumber.of_Z 0;
     Habit.createdDate := "" |}.

End SlotSpec.

Module CheckInSpec.

(** A check-in with only its outcome filled in. *)
Definition checkIn (success : bool) (qualityRating : option QualityRating.t)
  : CheckIn.t :=
  {| CheckIn.checkInID := "";
     CheckIn.habitID := "";
     CheckIn.date := "";
     CheckIn.success := success;
     CheckIn.qualityRating := qualityRating;
     CheckIn.timestamp := "" |}.

(** The coupling of outcome and quality that the specification requires. *)
Definition consistent (c : CheckIn.t) : Prop :=
  (CheckIn.success c = false
   /\ (CheckIn.qualityRating c = None
       \/ CheckIn.qualityRating c = Some QualityRating.FAIL))
  \/ (CheckIn.success c = true
      /\ (CheckIn.qualityRating c = Some QualityRating.HARD
          \/ CheckIn.qualityRating c = Some QualityRating.GOOD
          \/ CheckIn.qualityRating c = Some QualityRating.EASY)).

End CheckInSpec.

(* ------------------------------------------------------------------------ *)
(** ** Further vocabulary for slot collections *)
(* ------------------------------------------------------------------------ *)

Module SlotOps.

(** One of the two slots ends no later than the other starts. *)
Definition apart (s1 s2 : ScheduledSlot.t) : Prop :=
  ScheduledSlot.endTime s1 <= ScheduledSlot.startTime s2
  \/ ScheduledSlot.endTime s2 <= ScheduledSlot.startTime s1.

(** The times of the slot are below [b] in magnitude. *)
Definition times_below (b : Z) (s : ScheduledSlot.t) : Prop :=
  Z.abs (ScheduledSlot.startTime s) < b /\ Z.abs (ScheduledSlot.endTime s) < b.

(** The slot moved by [k] minutes. *)
Definition shift (k : Z) (s : ScheduledSlot.t) : ScheduledSlot.t :=
  {| ScheduledSlot.slotID := ScheduledSlot.slotID s;
     ScheduledSlot.scheduleID := ScheduledSlot.scheduleID s;
     ScheduledSlot.habitID := ScheduledSlot.habitID s;
     ScheduledSlot.startTime := ScheduledSlot.startTime s + k;
     ScheduledSlot.endTime := ScheduledSlot.endTime s + k |}.

(** The slots are listed by start time, earliest first. *)
Fixpoint starts_sorted (slots : list ScheduledSlot.t) : bool :=
  match slots with
  | s1 :: (s2 :: _) as rest =>
      (ScheduledSlot.startTime s1 <=? ScheduledSlot.startTime s2)
      && starts_sorted rest
  | _ => true
  end.

(** Every slot ends no later than the next one of the list starts. *)
Fixpoint adjacent_ok (slots : list ScheduledSlot.t) : bool :=
  match slots with
  | s1 :: (s2 :: _) as rest =>
      (ScheduledSlot.endTime s1 <=? ScheduledSlot.startTime s2)
      && adjacent_ok rest
  | _ => true
  end.

End SlotOps.

(* ------------------------------------------------------------------------ *)
(** ** Regional pricing: the currency heuristic *)
(* ------------------------------------------------------------------------ *)

(** [guessCurrencyLocally] of the pricing section reads the time zone from
    [Intl] and the language from [navigator]; both are inputs here. *)
Module Pricing.

Inductive Currency : Type :=
| USD | EUR | GBP | AUD | CAD | JPY | BRL | INR | CHF | CNY | MXN | TRY.

(** The two language properties read from [navigator]. *)
Record Navigator : Type := mkNavigator {
  language : optional string;
  userLanguage : optional string;
}.

(** What the browser answers.  [timeZone] is the value of
    [Intl.DateTimeFormat().resolvedOptions().timeZone], [None] when reading
    it throws; [navigator] is [None] when there is no such global, so that
    reading it throws. *)
Record Browser : Type := mkBrowser {
  timeZone : option (optional string);
  navigator : option Navigator;
}.

(** [s.startsWith(p)] *)
Definition startsWith (s p : string) : bool := String.prefix p s.

(** A string property is truthy when it is there and not empty. *)
Definition truthy (s : optional string) : bool :=
  match s with
  | defined s => negb (String.eqb s "")
  | undefined => false
  end.

(** [a || b] *)
Definition or_else (a b : optional string) : optional string :=
  if truthy a then a else b.

(** The chain of tests on the time zone; [None] when none of them
    returns. *)
Definition timezone_rules (tz : string) : option Currency :=
  if String.eqb tz "Europe/London" then Some GBP
  else if startsWith tz "Europe/" then Some EUR
  else if startsWith tz "Australia/" then Some AUD
  else if startsWith tz "Asia/Tokyo" then Some JPY
  else if startsWith tz "Asia/Kolkata" then Some INR
  else if startsWith tz "Asia/Shanghai" || startsWith tz "Asia/Hong_Kong"
    then Some CNY
  else if startsWith tz "America/Sao_Paulo" then Some BRL
  else if startsWith tz "America/Mexico_City" then Some MXN
  else if startsWith tz "America/Toronto" || startsWith tz "America/Vancouver"
    then Some CAD
  else if startsWith tz "Europe/Zurich" then Some CHF
  else if startsWith tz "Europe/Istanbul" then Some TRY
  else None.

(** The chain of tests on a truthy locale; [None] when none of them
    returns. *)
Definition locale_rules (locale : string) : option Currency :=
  if String.eqb locale "en-GB" then Some GBP
  else if String.eqb locale "en-AU" then Some AUD
  else if String.eqb locale "en-CA" || String.eqb locale "fr-CA" then Some CAD
  else if String.eqb locale "ja-JP" then Some JPY
  else if String.eqb locale "hi-IN" || String.eqb locale "en-IN" then Some INR
  else if String.eqb locale "pt-BR" then Some BRL
  else if String.eqb locale "zh-CN" then Some CNY
  else if String.eqb locale "es-MX" then Some MXN
  else if String.eqb locale "tr-TR" then Some TRY
  else if String.eqb locale "en-IE"
          || startsWith locale "de"
          || startsWith locale "fr"
          || startsWith locale "es"
          || startsWith locale "it"
    then Some EUR
  else None.

(** How the [try] block ends: with a [return], with an exception, or by
    running to its end. *)
Inductive outcome : Type :=
| Return (c : Currency)
| Thrown
| Completed.

Definition try_block (b : Browser) : outcome :=
  match timeZone b with
  | None => Thrown
  | Some undefined =>
      (* [tz === "Europe/London"] is false; [tz.startsWith] throws *)
      Thrown
  | Some (defined tz) =>
      match timezone_rules tz with
      | Some c => Return c
      | None =>
          (* Fallback to locale if timezone doesn't give a clear match *)
          match navigator b with
          | None => Thrown
          | Some nav =>
              match or_else (language nav) (userLanguage nav) with
              | defined locale =>
                  if truthy (defined locale) then
                    match locale_rules locale with
                    | Some c => Return c
                    | None => Completed
                    end
                  else Completed
              | undefined => Completed
              end
          end
      end
  end.

(** The exception is swallowed by the [catch]; whatever did not return
    ends in [return "USD"]. *)
Definition guessCurrencyLocally (b : Browser) : Currency :=
  match try_block b with
  | Return c => c
  | Thrown | Completed => USD
  end.

(** The time zone settles the answer: reading it fails, it is missing, or
    one of the tests on it returns. *)
Definition timezone_settles (b : Browser) : Prop :=
  match timeZone b with
  | Some (defined tz) => timezone_rules tz <> None
  | _ => True
  end.

End Pricing.

(* ------------------------------------------------------------------------ *)
(** ** Further vocabulary for check-ins and time windows *)
(* ------------------------------------------------------------------------ *)

Module CheckInMore.

(** The object [{ success, qualityRating: n }] with a number as rating. *)
Definition rated (success : bool) (n : JsNumber.number) : PartialCheckIn.t :=
  PartialCheckIn.mk undefined undefined undefined (defined success)
    (defined (num n)) undefined.

End CheckInMore.

Module TimeWindowSpec.

(** The five windows other than ANY. *)
Definition proper_windows : list TimeWindow.t :=
  [TimeWindow.EARLY_MORNING; TimeWindow.MORNING; TimeWindow.AFTERNOON;
   TimeWindow.EVENING; TimeWindow.NIGHT].

(** The windows of [l] other than [x], in their order. *)
Definition without (x : TimeWindow.t) (l : list TimeWindow.t)
  : list TimeWindow.t :=
  filter (fun y => negb (TimeWindow.eqb y x)) l.

End TimeWindowSpec.

(* ------------------------------------------------------------------------ *)
(** ** The throttled scroll hub *)
(* ------------------------------------------------------------------------ *)

(** [useThrottledScroll] shares two module-level variables, [ticking] and the
    [listeners] set, among all the components that use it.  The model holds
    them together with what the hook asks of the browser: whether
    [handleScroll] is a scroll listener of [window], and the callbacks
    handed to [requestAnimationFrame] that have not run yet.  A function
    object is a number, the next closure created getting the next number.
    A user's callback may throw; it is taken not to touch the hub while it
    runs. *)
Module ScrollHub.

(** A callback waiting for the next animation frame: the one scheduled by
    [handleScroll], or the initial call of a wrapped callback. *)
Inductive Task : Type :=
| Flush
| Initial (wrappedCallback : nat).

Record State : Type := mkState {
  ticking : bool;
  listeners : list nat;           (* the Set, in insertion order *)
  attached : bool;                (* handleScroll listens to "scroll" *)
  frames : list (nat * Task);     (* pending frame callbacks, by id *)
  nextFrame : nat;                (* the id requestAnimationFrame gives next *)
  effects : list (nat * nat);     (* effects in place: wrappedCallback, rafId *)
  nextCallback : nat;             (* the next closure created *)
  calls : list (nat * Z);         (* calls made: wrapped callback, scrollY *)
}.

(** The module as loaded: [ticking = false], [listeners = new Set()]. *)
Definition initial : State := mkState false [] false [] 0 [] 0 [].

Definition set_ticking (v : bool) (st : State) : State :=
  mkState v (listeners st) (attached st) (frames st) (nextFrame st)
    (effects st) (nextCallback st) (calls st).

Definition set_listeners (v : list nat) (st : State) : State :=
  mkState (ticking st) v (attached st) (frames st) (nextFrame st)
    (effects st) (nextCallback st) (calls st).

Definition set_attached (v : bool) (st : State) : State :=
  mkState (ticking st) (listeners st) v (frames st) (nextFrame st)
    (effects st) (nextCallback st) (calls st).

Definition set_frames (v : list (nat * Task)) (st : State) : State :=
  mkState (ticking st) (listeners st) (attached st) v (nextFrame st)
    (effects st) (nextCallback st) (calls st).

Definition add_calls (v : list (nat * Z)) (st : State) : State :=
  mkState (ticking st) (listeners st) (attached st) (frames st) (nextFrame st)
    (effects st) (nextCallback st) (calls st ++ v).

(** [set.add(x)] and [set.delete(x)] *)
Definition Set_add (s : list nat) (x : nat) : list nat :=
  if existsb (Nat.eqb x) s then s else s ++ [x].

Definition Set_delete (s : list nat) (x : nat) : list nat :=
  filter (fun y => negb (Nat.eqb y x)) s.

(** [requestAnimationFrame(task)]: queues the task and returns its id. *)
Definition requestAnimationFrame (task : Task) (st : State) : nat * State :=
  (nextFrame st,
   mkState (ticking st) (listeners st) (attached st)
     (frames st ++ [(nextFrame st, task)]) (S (nextFrame st))
     (effects st) (nextCallback st) (calls st)).

(** [cancelAnimationFrame(id)] *)
Definition cancelAnimationFrame (id : nat) (st : State) : State :=
  set_frames (filter (fun t => negb (Nat.eqb (fst t) id)) (frames st)) st.

Definition handleScroll (st : State) : State :=
  if negb (ticking st) then
    let (_, st1) := requestAnimationFrame Flush st in
    set_ticking true st1
  else st.

(** The effect of [useThrottledScroll], run when a component mounts. *)
Definition mount (st : State) : State :=
  let wrappedCallback := nextCallback st in
  let st1 :=
    if (List.length (listeners st) =? 0)%nat then set_attached true st
    else st in
  let st2 := set_listeners (Set_add (listeners st1) wrappedCallback) st1 in
  (* Initial call to set state *)
  let (rafId, st3) := requestAnimationFrame (Initial wrappedCallback) st2 in
  mkState (ticking st3) (listeners st3) (attached st3) (frames st3)
    (nextFrame st3) ((wrappedCallback, rafId) :: effects st3)
    (S (nextCallback st3)) (calls st3).

(** The function the effect returns, with the [wrappedCallback] and the
    [rafId] it closes over. *)
Definition cleanup (wrappedCallback rafId : nat) (st : State) : State :=
  let st1 := cancelAnimationFrame rafId st in
  let st2 := set_listeners (Set_delete (listeners st1) wrappedCallback) st1 in
  if (List.length (listeners st2) =? 0)%nat then set_attached false st2
  else st2.

(** A component unmounts: its cleanup runs, once; there is nothing to run
    for a callback that has no effect in place. *)
Definition unmount (wrappedCallback : nat) (st : State) : State :=
  match find (fun e => Nat.eqb (fst e) wrappedCallback) (effects st) with
  | Some (cb, rafId) =>
      let st1 := cleanup cb rafId st in
      mkState (ticking st1) (listeners st1) (attached st1) (frames st1)
        (nextFrame st1)
        (filter (fun e => negb (Nat.eqb (fst e) wrappedCallback)) (effects st1))
        (nextCallback st1) (calls st1)
  | None => st
  end.

(** The browser fires a scroll event: it calls the listeners of
    [window]. *)
Definition scroll (st : State) : State :=
  if attached st then handleScroll st else st.

(** [listeners.forEach((callback) => callback(scrollY))], the callbacks
    in [throwing] being those that throw when called: the callbacks are
    called in insertion order and the first one that throws ends the loop.
    The result is the calls made and whether an exception left the loop. *)
Fixpoint forEach (throwing : list nat) (scrollY : Z) (callbacks : list nat)
  : list (nat * Z) * bool :=
  match callbacks with
  | [] => ([], false)
  | callback :: rest =>
      if existsb (Nat.eqb callback) throwing then ([(callback, scrollY)], true)
      else
        let (made, thrown) := forEach throwing scrollY rest in
        ((callback, scrollY) :: made, thrown)
  end.

(** One frame callback runs, [window.scrollY] being [scrollY].  An
    exception leaves the callback where it is thrown: in the one scheduled
    by [handleScroll], before [ticking = false]. *)
Definition run_task (scrollY : Z) (throwing : list nat) (st : State)
  (t : nat * Task) : State :=
  match snd t with
  | Flush =>
      let (made, thrown) := forEach throwing scrollY (listeners st) in
      if thrown then add_calls made st
      else set_ticking false (add_calls made st)
  | Initial wrappedCallback => add_calls [(wrappedCallback, scrollY)] st
  end.

(** An animation frame: the callbacks queued so far run in order, each on
    its own, so that an exception in one does not keep the next from
    running. *)
Definition frame (scrollY : Z) (throwing : list nat) (st : State) : State :=
  fold_left (run_task scrollY throwing) (frames st) (set_frames [] st).

(** What happens to the hub.  A frame comes with [window.scrollY] and with
    the wrapped callbacks that throw when called in it. *)
Inductive Event : Type :=
| Mount
| Unmount (wrappedCallback : nat)
| Scroll
| Frame (scrollY : Z) (throwing : list nat).

Definition step (st : State) (e : Event) : State :=
  match e with
  | Mount => mount st
  | Unmount wrappedCallback => unmount wrappedCallback st
  | Scroll => scroll st
  | Frame scrollY throwing => frame scrollY throwing st
  end.

(** No callback throws in the frames of the history. *)
Definition calm (events : list Event) : bool :=
  forallb
    (fun e =>
       match e with
       | Frame _ (_ :: _) => false
       | _ => true
       end)
    events.

(** The hub after a history of events, from the module as loaded. *)
Definition run (events : list Event) : State := fold_left step events initial.

Definition is_flush (t : nat * Task) : bool :=
  match snd t with Flush => true | Initial _ => false end.

(** How many [Flush] callbacks wait for the next frame. *)
Definition pending_flushes (st : State) : nat :=
  List.length (filter is_flush (frames st)).

(** The wrapped callbacks of the effects in place. *)
Definition subscribed (st : State) : list nat := map fst (effects st).

(** What ties the parts of the hub together. *)
Record consistent (st : State) : Prop := mkConsistent {
  inv_listeners : listeners st = rev (subscribed st);
  inv_fresh : forall cb, In cb (subscribed st) -> (cb < nextCallback st)%nat;
  inv_nodup : NoDup (subscribed st);
  inv_attached :
    attached st = negb (List.length (listeners st) =? 0)%nat;
  inv_frames :
    forall id t, In (id, t) (frames st) -> (id < nextFrame st)%nat;
  inv_rafs :
    forall cb id, In (cb, id) (effects st) -> (id < nextFrame st)%nat;
  inv_initial :
    forall id cb, In (id, Initial cb) (frames st) -> In (cb, id) (effects st);
  inv_flush_ids :
    forall id cb, In (id, Flush) (frames st) -> ~ In (cb, id) (effects st);
  inv_ticking :
    pending_flushes st = 0%nat
    \/ (pending_flushes st = 1%nat /\ ticking st = true);
}.

End ScrollHub.

(* ======================================================================== *)
(** * Part II: properties *)
(* ======================================================================== *)

(* ------------------------------------------------------------------------ *)
(** ** Numbers *)
(* ------------------------------------------------------------------------ *)

Module JsNumberFacts.

Import JsNumber.

Lemma isInteger_spec (a : number) :
  isInteger a = true <-> exists z, is_int a z.
Proof.
  destruct a as [| s | q]; simpl.
  - split; [discriminate | intros [z []]].
  - split; [discriminate | intros [z []]].
  - rewrite Qeq_bool_iff. split.
    + intros H. now exists (Qfloor q).
    + intros [z Hz]. rewrite Hz at 2. now rewrite Qfloor_Z.
Qed.

Lemma le_int_l (z : Z) (a : number) (k : Z) :
  is_int a k -> le (of_Z z) a = (z <=? k).
Proof.
  destruct a as [| s | q]; simpl; try contradiction.
  intros Hq.
  destruct (Z.leb_spec z k) as [Hle | Hgt].
  - apply Qle_bool_iff. rewrite Hq. now rewrite <- Zle_Qle.
  - apply not_true_is_false. rewrite Qle_bool_iff, Hq, <- Zle_Qle. lia.
Qed.

Lemma le_int_r (a : number) (k z : Z) :
  is_int a k -> le a (of_Z z) = (k <=? z).
Proof.
  destruct a as [| s | q]; simpl; try contradiction.
  intros Hq.
  destruct (Z.leb_spec k z) as [Hle | Hgt].
  - apply Qle_bool_iff. rewrite Hq. now rewrite <- Zle_Qle.
  - apply not_true_is_false. rewrite Qle_bool_iff, Hq, <- Zle_Qle. lia.
Qed.

Lemma is_int_of_Z (z : Z) : is_int (of_Z z) z.
Proof. simpl. reflexivity. Qed.

(** The shape shared by the two numeric guards:
    [value >= lo && value <= hi && Number.isInteger(value)]. *)
Lemma int_range_guard (lo hi : Z) (v : number) :
  ge v (of_Z lo) && le v (of_Z hi) && isInteger v = true
  <-> exists z, is_int v z /\ lo <= z <= hi.
Proof.
  unfold ge. rewrite !andb_true_iff, isInteger_spec. split.
  - intros [[Hlo Hhi] [z Hz]]. exists z. split; [exact Hz |].
    rewrite (le_int_l _ _ _ Hz) in Hlo. rewrite (le_int_r _ _ _ Hz) in Hhi.
    apply Z.leb_le in Hlo, Hhi. lia.
  - intros [z [Hz Hr]]. repeat split.
    + rewrite (le_int_l _ _ _ Hz). apply Z.leb_le. lia.
    + rewrite (le_int_r _ _ _ Hz). apply Z.leb_le. lia.
    + now exists z.
Qed.

End JsNumberFacts.

(* ------------------------------------------------------------------------ *)
(** ** Type guards *)
(* ------------------------------------------------------------------------ *)

Module GuardFacts.

Import JsNumber Guards.

(** Splits a membership test over a literal vocabulary into its cases. *)
Ltac vocabulary_cases :=
  repeat match goal with
  | H : _ || _ = true |- _ => apply orb_true_iff in H; destruct H as [H | H]
  | H : String.eqb _ _ = true |- _ => apply String.eqb_eq in H
  | H : false = true |- _ => discriminate H
  end.

Lemma isTimeWindow_spec (s : string) :
  isTimeWindow s = true <-> exists w, s = TimeWindow.value w.
Proof.
  split.
  - cbv [isTimeWindow includes Object_values TimeWindow.members
         TimeWindow.value map existsb].
    intros H.
    vocabulary_cases; subst s;
      [ now exists TimeWindow.EARLY_MORNING | now exists TimeWindow.MORNING
      | now exists TimeWindow.AFTERNOON | now exists TimeWindow.EVENING
      | now exists TimeWindow.NIGHT | now exists TimeWindow.ANY ].
  - intros [w ->]. now destruct w.
Qed.

Lemma isIntegrationMethod_spec (s : string) :
  isIntegrationMethod s = true <-> exists m, s = IntegrationMethod.value m.
Proof.
  split.
  - unfold isIntegrationMethod. intros H.
    vocabulary_cases; subst s;
      [ now exists IntegrationMethod.EULER | now exists IntegrationMethod.RK4 ].
  - intros [m ->]. now destruct m.
Qed.

Lemma isNotificationChannel_spec (s : string) :
  isNotificationChannel s = true <-> exists c, s = NotificationChannel.value c.
Proof.
  split.
  - cbv [isNotificationChannel includes Object_values
         NotificationChannel.members NotificationChannel.value map existsb].
    intros H.
    vocabulary_cases; subst s;
      [ now exists NotificationChannel.EMAIL | now exists NotificationChannel.PUSH
      | now exists NotificationChannel.IN_APP ].
  - intros [c ->]. now destruct c.
Qed.

(** C6. Every membership predicate of an enumerated domain is a total
    boolean function that rejects what is outside the domain:
    [isQualityRating v] holds exactly when [v] is an integer between 0 and
    3 (so 7 is rejected), [isDayOfWeek v] exactly when [v] is an integer
    between 0 and 6, and [isTimeWindow], [isIntegrationMethod] and
    [isNotificationChannel] hold exactly for the strings of their
    vocabulary. *)
Theorem membership_predicates :
  (forall v, isQualityRating v = true <-> exists z, is_int v z /\ 0 <= z <= 3)
  /\ isQualityRating (of_Z 7) = false
  /\ (forall v, isDayOfWeek v = true <-> exists z, is_int v z /\ 0 <= z <= 6)
  /\ (forall s, isTimeWindow s = true <-> exists w, s = TimeWindow.value w)
  /\ (forall s, isIntegrationMethod s = true
                <-> exists m, s = IntegrationMethod.value m)
  /\ (forall s, isNotificationChannel s = true
                <-> exists c, s = NotificationChannel.value c).
Proof.
  repeat split;
    try (apply JsNumberFacts.int_range_guard);
    try (apply isTimeWindow_spec);
    try (apply isIntegrationMethod_spec);
    try (apply isNotificationChannel_spec).
Qed.

End GuardFacts.

(* ------------------------------------------------------------------------ *)
(** ** Check-in consistency *)
(* ------------------------------------------------------------------------ *)

Module CheckInFacts.

Import Validators CheckInSpec.

(** C1. On a complete check-in, [validateCheckIn] holds exactly when the
    check-in failed with quality null or FAIL, or succeeded with quality
    HARD, GOOD or EASY; a failed one without quality passes, a successful
    one without quality does not, a successful GOOD one passes. *)
Theorem validateCheckIn_consistent :
  (forall c : CheckIn.t,
     validateCheckIn (CheckIn_as_partial c) = true <-> consistent c)
  /\ validateCheckIn (CheckIn_as_partial (checkIn false None)) = true
  /\ validateCheckIn (CheckIn_as_partial (checkIn true None)) = false
  /\ validateCheckIn
       (CheckIn_as_partial (checkIn true (Some QualityRating.GOOD))) = true.
Proof.
  split; [| repeat split].
  intros [id hid d success rating ts]. unfold consistent. simpl.
  destruct success, rating as [[] |]; vm_compute;
    (split; [intros H; try discriminate H; intuition congruence |]);
    intros [[H1 H2] | [H1 H2]]; try discriminate H1; try reflexivity;
    intuition congruence.
Qed.

(** C10. A check-in object without a [success] property is rejected
    whatever else it holds, and so is a failed one whose [qualityRating]
    property is missing (undefined, which is neither null nor FAIL). *)
Theorem validateCheckIn_missing_property :
  (forall id hid d rating ts,
     validateCheckIn (PartialCheckIn.mk id hid d undefined rating ts) = false)
  /\ (forall id hid d ts,
        validateCheckIn
          (PartialCheckIn.mk id hid d (defined false) undefined ts) = false).
Proof. split; reflexivity. Qed.

End CheckInFacts.

(* ------------------------------------------------------------------------ *)
(** ** Slot and duration *)
(* ------------------------------------------------------------------------ *)

Module SlotDurationFacts.

Import JsNumber Validators SlotSpec.

Lemma round_small (x : Z) : Z.abs x < 2 ^ 53 -> JsInteger.round x = x.
Proof.
  intros H. unfold JsInteger.round, JsInteger.prec. cbv zeta.
  assert (Z.log2 (Z.abs x) + 1 - 53 <= 0) as Hk.
  { destruct (Z.eq_dec (Z.abs x) 0) as [-> | Hne]; [simpl; lia |].
    assert (Z.log2 (Z.abs x) < 53) by (apply Z.log2_lt_pow2; lia). lia. }
  apply Z.leb_le in Hk. now rewrite Hk.
Qed.

(** Rounding keeps what is not positive from becoming positive. *)
Lemma round_nonpos (x : Z) : x <= 0 -> JsInteger.round x <= 0.
Proof.
  intros H. unfold JsInteger.round. cbv zeta.
  destruct (Z.log2 (Z.abs x) + 1 - JsInteger.prec <=? 0) eqn:Ek;
    [exact H |].
  apply Z.leb_gt in Ek.
  set (k := Z.log2 (Z.abs x) + 1 - JsInteger.prec) in *.
  set (q := Z.shiftr (Z.abs x) k).
  assert (0 <= q) as Hq by (apply Z.shiftr_nonneg; lia).
  match goal with
  | |- Z.sgn x * Z.shiftl ?q' k <= 0 =>
      assert (0 <= Z.shiftl q' k) as Hs
        by (apply Z.shiftl_nonneg;
            destruct ((Z.shiftl 1 (k - 1) <? Z.abs x - Z.shiftl q k)
                      || ((Z.abs x - Z.shiftl q k =? Z.shiftl 1 (k - 1))
                          && Z.odd q)); lia)
  end.
  assert (Z.sgn x <= 0) by lia. nia.
Qed.

Lemma strict_eq_of_Z (a b : Z) : strict_eq (of_Z a) (of_Z b) = (a =? b).
Proof.
  simpl. destruct (Z.eqb_spec a b) as [-> | Hne].
  - now apply Qeq_bool_iff.
  - apply not_true_is_false. rewrite Qeq_bool_iff, inject_Z_injective.
    exact Hne.
Qed.

(** What [validateSlotDuration] tests: the rounded difference is finite and
    is the duration. *)
Lemma validateSlotDuration_spec (s : ScheduledSlot.t) (h : Habit.t) :
  validateSlotDuration s h = true
  <-> Z.abs (JsInteger.round
               (ScheduledSlot.endTime s - ScheduledSlot.startTime s))
      < 2 ^ JsInteger.emax
      /\ JsInteger.round (ScheduledSlot.endTime s - ScheduledSlot.startTime s)
         = Habit.duration h.
Proof.
  unfold validateSlotDuration, JsInteger.sub. cbv zeta.
  set (r := JsInteger.round
              (ScheduledSlot.endTime s - ScheduledSlot.startTime s)).
  destruct (Z.leb_spec (2 ^ JsInteger.emax) (Z.abs r)) as [Hbig | Hfin].
  - unfold of_Z. cbn [strict_eq]. split; [discriminate | intros [H _]; lia].
  - rewrite strict_eq_of_Z, Z.eqb_eq. tauto.
Qed.

(** A slot that agrees with a positive duration ends after it starts. *)
Lemma validateSlotDuration_positive (s : ScheduledSlot.t) (h : Habit.t) :
  validateSlotDuration s h = true -> 0 < Habit.duration h -> nonempty s.
Proof.
  rewrite validateSlotDuration_spec. intros [_ Hr] Hpos. unfold nonempty.
  destruct (Z.lt_ge_cases (ScheduledSlot.startTime s) (ScheduledSlot.endTime s))
    as [Hlt | Hge]; [exact Hlt |].
  pose proof (round_nonpos
                (ScheduledSlot.endTime s - ScheduledSlot.startTime s)).
  lia.
Qed.

(** On the sample integers the subtraction agrees, pair by pair, with the
    one computed by the IEEE 754 operations of the Standard Library. *)
Lemma sub_agrees_with_IEEE_on_samples :
  forallb
    (fun a =>
       forallb
         (fun b =>
            match JsInteger.sub a b, JsInteger.sub_IEEE a b with
            | Finite p, Finite q => Qeq_bool p q
            | Infinity s, Infinity t => Bool.eqb s t
            | _, _ => false
            end)
         JsInteger.samples)
    JsInteger.samples = true.
Proof. vm_compute. reflexivity. Qed.

(** C3 (as amended). For a slot whose start and end times are integers of
    magnitude below [2 ^ 52], as minute counts are, [validateSlotDuration]
    holds exactly when the end time minus the start time is the duration
    of the habit, without any tolerance: the slot from 480 to 510 agrees
    with a duration of 30 and not with one of 25. *)
Theorem validateSlotDuration_exact :
  (forall (s : ScheduledSlot.t) (h : Habit.t),
     Z.abs (ScheduledSlot.startTime s) < 2 ^ 52 ->
     Z.abs (ScheduledSlot.endTime s) < 2 ^ 52 ->
     (validateSlotDuration s h = true
      <-> ScheduledSlot.endTime s - ScheduledSlot.startTime s
          = Habit.duration h))
  /\ validateSlotDuration (slot 480 510) (habit 30) = true
  /\ validateSlotDuration (slot 480 510) (habit 25) = false.
Proof.
  split; [| split; vm_compute; reflexivity].
  intros s h Hs He. rewrite validateSlotDuration_spec.
  assert (Z.abs (ScheduledSlot.endTime s - ScheduledSlot.startTime s) < 2 ^ 53)
    as Hd by (change (2 ^ 53) with (2 * 2 ^ 52); lia).
  rewrite (round_small _ Hd).
  assert (2 ^ 53 < 2 ^ JsInteger.emax) by (vm_compute; reflexivity).
  split; [tauto | intros H'; split; [lia | exact H']].
Qed.

Lemma validateSlotDuration_exact_witness :
  validateSlotDuration (slot 540 585) (habit 45) = true.
Proof.
  apply (proj1 validateSlotDuration_exact (slot 540 585) (habit 45)).
  - vm_compute. reflexivity.
  - vm_compute. reflexivity.
  - reflexivity.
Defined.

(** Beyond [2 ^ 53] the subtraction rounds: from 1 to [2 ^ 53 + 2] there
    are [2 ^ 53 + 1] minutes, and the slot agrees with a duration of
    [2 ^ 53]. *)
Lemma validateSlotDuration_rounds :
  validateSlotDuration (slot 1 (2 ^ 53 + 2)) (habit (2 ^ 53)) = true
  /\ 2 ^ 53 + 2 - 1 <> 2 ^ 53.
Proof. split; [vm_compute; reflexivity | vm_compute; discriminate]. Qed.

End SlotDurationFacts.

(* ------------------------------------------------------------------------ *)
(** ** Default preference table *)
(* ------------------------------------------------------------------------ *)

Module DefaultsFacts.

Import JsNumber Defaults.

(** C8. The default table holds the documented values: a day from 06:00
    to 23:00 in steps of 15 minutes; a cold-start threshold and a recent
    window of 7 days and a risk threshold of 0.8; spaced repetition on with
    intervals from 1 to 90; simulation off, with Euler integration and a
    step of 0.05 seconds; intervention alerts on at threshold 0.8, through
    the in-app channel only. *)
Theorem default_table_values :
  let d := DEFAULT_USER_PREFERENCES in
  let sch := UserPreferences.scheduling d in
  let pre := UserPreferences.prediction d in
  let ada := UserPreferences.adaptiveFrequency d in
  let sim := UserPreferences.simulation d in
  let noti := UserPreferences.notifications d in
  (SchedulingPreferences.dailyStartTime sch = "06:00"%string
   /\ SchedulingPreferences.dailyEndTime sch = "23:00"%string
   /\ Granularity.minutes (SchedulingPreferences.timeSlotGranularity sch) = 15)
  /\ (is_int (PredictionPreferences.coldStartThreshold pre) 7
      /\ is_int (PredictionPreferences.recentWindowSize pre) 7
      /\ PredictionPreferences.riskThreshold pre = Finite 0.8)
  /\ (AdaptiveFrequencyPreferences.enableSM2 ada = true
      /\ is_int (AdaptiveFrequencyPreferences.minInterval ada) 1
      /\ is_int (AdaptiveFrequencyPreferences.maxInterval ada) 90)
  /\ (SimulationPreferences.enabled sim = false
      /\ SimulationPreferences.integrationMethod sim = IntegrationMethod.EULER
      /\ SimulationPreferences.timeStep sim = Finite 0.05)
  /\ (NotificationPreferences.enableInterventionAlerts noti = true
      /\ NotificationPreferences.alertThreshold noti = Finite 0.8
      /\ NotificationPreferences.channels noti = [NotificationChannel.IN_APP]).
Proof. cbv zeta. repeat split. Qed.

End DefaultsFacts.

(* ------------------------------------------------------------------------ *)
(** ** Time-window normalization *)
(* ------------------------------------------------------------------------ *)

Module TimeWindowFacts.

Import Validators.

Lemma eqb_eq (a b : TimeWindow.t) : TimeWindow.eqb a b = true <-> a = b.
Proof. destruct a, b; vm_compute; split; congruence. Qed.

Lemma Set_has_In (s : list TimeWindow.t) (x : TimeWindow.t) :
  Set_has s x = true <-> In x s.
Proof.
  unfold Set_has. rewrite existsb_exists. split.
  - intros [y [Hin Heq]]. apply eqb_eq in Heq. now subst.
  - intros Hin. exists x. split; [assumption | now apply eqb_eq].
Qed.

Lemma includes_In (xs : list TimeWindow.t) (x : TimeWindow.t) :
  includes xs x = true <-> In x xs.
Proof. apply Set_has_In. Qed.

Lemma Set_add_In (s : list TimeWindow.t) (x y : TimeWindow.t) :
  In y (Set_add s x) <-> In y s \/ y = x.
Proof.
  unfold Set_add. destruct (Set_has s x) eqn:E.
  - apply Set_has_In in E. split; [tauto | intros [H | ->]; assumption].
  - rewrite in_app_iff. simpl. intuition congruence.
Qed.

Lemma Set_add_NoDup (s : list TimeWindow.t) (x : TimeWindow.t) :
  NoDup s -> NoDup (Set_add s x).
Proof.
  intros Hs. unfold Set_add. destruct (Set_has s x) eqn:E; [assumption |].
  assert (~ In x s) as Hx by (rewrite <- Set_has_In; congruence).
  apply NoDup_rev in Hs. rewrite <- (rev_involutive (s ++ [x])).
  apply NoDup_rev. rewrite rev_app_distr. simpl. constructor; [| assumption].
  now rewrite <- in_rev.
Qed.

Lemma fold_Set_add_In (l s : list TimeWindow.t) (y : TimeWindow.t) :
  In y (fold_left Set_add l s) <-> In y s \/ In y l.
Proof.
  revert s. induction l as [| x l IH]; intros s; simpl.
  - tauto.
  - rewrite IH, Set_add_In. intuition congruence.
Qed.

Lemma fold_Set_add_NoDup (l s : list TimeWindow.t) :
  NoDup s -> NoDup (fold_left Set_add l s).
Proof.
  revert s. induction l as [| x l IH]; intros s Hs; simpl.
  - assumption.
  - apply IH. now apply Set_add_NoDup.
Qed.

(** Adding the elements of a list that has no duplicates and nothing in
    common with the set appends them in order. *)
Lemma fold_Set_add_fresh (l s : list TimeWindow.t) :
  NoDup (s ++ l) -> fold_left Set_add l s = s ++ l.
Proof.
  revert s. induction l as [| x l IH]; intros s Hnd; simpl.
  - now rewrite app_nil_r.
  - assert (~ In x s) as Hx.
    { apply NoDup_remove_2 in Hnd. rewrite in_app_iff in Hnd. tauto. }
    unfold Set_add at 2. destruct (Set_has s x) eqn:E.
    + apply Set_has_In in E. contradiction.
    + rewrite IH; rewrite <- app_assoc; simpl; [reflexivity | assumption].
Qed.

Lemma new_Set_In (l : list TimeWindow.t) (y : TimeWindow.t) :
  In y (new_Set l) <-> In y l.
Proof. unfold new_Set. rewrite fold_Set_add_In. simpl. tauto. Qed.

Lemma new_Set_NoDup (l : list TimeWindow.t) : NoDup (new_Set l).
Proof. apply fold_Set_add_NoDup. constructor. Qed.

Lemma new_Set_fixed (l : list TimeWindow.t) : NoDup l -> new_Set l = l.
Proof. intros H. unfold new_Set. now rewrite fold_Set_add_fresh. Qed.

(** The three ways out of [validateTimeWindow]. *)
Lemma validateTimeWindow_nil : validateTimeWindow [] = [TimeWindow.ANY].
Proof. reflexivity. Qed.

Lemma validateTimeWindow_any (windows : list TimeWindow.t) :
  In TimeWindow.ANY windows -> validateTimeWindow windows = [TimeWindow.ANY].
Proof.
  intros H. unfold validateTimeWindow, Array_from.
  destruct (List.length windows =? 0)%nat; [reflexivity |].
  assert (includes (new_Set windows) TimeWindow.ANY = true) as ->
    by (now apply includes_In, new_Set_In).
  reflexivity.
Qed.

Lemma validateTimeWindow_plain (windows : list TimeWindow.t) :
  windows <> [] -> ~ In TimeWindow.ANY windows ->
  validateTimeWindow windows = new_Set windows.
Proof.
  intros Hne Hany. unfold validateTimeWindow, Array_from.
  destruct windows as [| w ws]; [contradiction |]. cbn [List.length Nat.eqb].
  assert (includes (new_Set (w :: ws)) TimeWindow.ANY = false) as ->.
  { apply not_true_is_false. now rewrite includes_In, new_Set_In. }
  reflexivity.
Qed.

Lemma validateTimeWindow_cases (windows : list TimeWindow.t) :
  validateTimeWindow windows = [TimeWindow.ANY]
  \/ (windows <> [] /\ ~ In TimeWindow.ANY windows
      /\ validateTimeWindow windows = new_Set windows).
Proof.
  destruct windows as [| w ws]; [now left |].
  destruct (includes (w :: ws) TimeWindow.ANY) eqn:E.
  - left. now apply validateTimeWindow_any, includes_In.
  - assert (~ In TimeWindow.ANY (w :: ws)) as Hout
      by (rewrite <- includes_In; congruence).
    right. repeat split; [discriminate | assumption |].
    now apply validateTimeWindow_plain.
Qed.

Lemma validateTimeWindow_NoDup (windows : list TimeWindow.t) :
  NoDup (validateTimeWindow windows).
Proof.
  destruct (validateTimeWindow_cases windows) as [-> | [_ [_ ->]]].
  - repeat constructor. simpl. tauto.
  - apply new_Set_NoDup.
Qed.

Lemma validateTimeWindow_perm (windows windows' : list TimeWindow.t) :
  Permutation windows windows' ->
  Permutation (validateTimeWindow windows) (validateTimeWindow windows').
Proof.
  intros HP.
  destruct (validateTimeWindow_cases windows) as [E | [Hne [Hany E]]].
  - destruct (validateTimeWindow_cases windows') as [E' | [Hne' [Hany' E']]].
    + now rewrite E, E'.
    + exfalso. destruct windows as [| w ws].
      * apply Permutation_nil in HP. congruence.
      * destruct (includes (w :: ws) TimeWindow.ANY) eqn:Hin.
        -- apply Hany'. eapply Permutation_in; [exact HP |].
           now apply includes_In.
        -- assert (~ In TimeWindow.ANY (w :: ws)) as Hout
             by (rewrite <- includes_In; congruence).
           rewrite validateTimeWindow_plain in E by (discriminate || auto).
           apply Hout. apply new_Set_In. rewrite E. now left.
  - assert (windows' <> []) as Hne'.
    { intros ->. apply Permutation_sym, Permutation_nil in HP. congruence. }
    assert (~ In TimeWindow.ANY windows') as Hany'.
    { intros H. apply Hany. eapply Permutation_in; [| exact H].
      now apply Permutation_sym. }
    rewrite E, (validateTimeWindow_plain _ Hne' Hany').
    apply NoDup_Permutation; try apply new_Set_NoDup.
    intros x. rewrite !new_Set_In. split; apply Permutation_in; auto.
    now apply Permutation_sym.
Qed.

(** C4 (as amended). The result of [validateTimeWindow] has no duplicates;
    it is [[ANY]] for the empty input and for every input that contains
    ANY; otherwise it holds exactly the windows of the input, and is the
    input itself when that has no duplicates.  Two permutations of the same
    windows give results that are permutations of each other. *)
Theorem validateTimeWindow_set_of_input (windows : list TimeWindow.t) :
  NoDup (validateTimeWindow windows)
  /\ validateTimeWindow [] = [TimeWindow.ANY]
  /\ (In TimeWindow.ANY windows ->
      validateTimeWindow windows = [TimeWindow.ANY])
  /\ (windows <> [] -> ~ In TimeWindow.ANY windows ->
      (forall w, In w (validateTimeWindow windows) <-> In w windows)
      /\ (NoDup windows -> validateTimeWindow windows = windows))
  /\ (forall windows', Permutation windows windows' ->
      Permutation (validateTimeWindow windows) (validateTimeWindow windows')).
Proof.
  split; [apply validateTimeWindow_NoDup |].
  split; [reflexivity |].
  split; [apply validateTimeWindow_any |].
  split; [| intros w'; apply validateTimeWindow_perm].
  intros Hne Hany. rewrite (validateTimeWindow_plain _ Hne Hany).
  split; [intros w; apply new_Set_In | apply new_Set_fixed].
Qed.

Lemma validateTimeWindow_set_of_input_witness :
  validateTimeWindow [TimeWindow.MORNING; TimeWindow.ANY] = [TimeWindow.ANY]
  /\ validateTimeWindow [TimeWindow.NIGHT; TimeWindow.MORNING]
     = [TimeWindow.NIGHT; TimeWindow.MORNING]
  /\ Permutation
       (validateTimeWindow [TimeWindow.MORNING; TimeWindow.EVENING])
       (validateTimeWindow [TimeWindow.EVENING; TimeWindow.MORNING]).
Proof.
  split; [| split].
  - apply (validateTimeWindow_set_of_input
             [TimeWindow.MORNING; TimeWindow.ANY]).
    simpl. auto.
  - apply (validateTimeWindow_set_of_input
             [TimeWindow.NIGHT; TimeWindow.MORNING]).
    + discriminate.
    + simpl. intros [H | [H | []]]; discriminate H.
    + apply NoDup_cons; [simpl; intros [H | []]; discriminate H |].
      apply NoDup_cons; [simpl; tauto | apply NoDup_nil].
  - apply (validateTimeWindow_set_of_input
             [TimeWindow.MORNING; TimeWindow.EVENING]).
    apply perm_swap.
Defined.

(** Two orders of the same two windows come back as two different
    arrays. *)
Lemma validateTimeWindow_order_dependent :
  Permutation [TimeWindow.MORNING; TimeWindow.EVENING]
              [TimeWindow.EVENING; TimeWindow.MORNING]
  /\ validateTimeWindow [TimeWindow.MORNING; TimeWindow.EVENING]
     <> validateTimeWindow [TimeWindow.EVENING; TimeWindow.MORNING].
Proof. split; [apply perm_swap | discriminate]. Qed.

(** C5. Normalising twice gives what normalising once gives. *)
Theorem validateTimeWindow_idempotent (windows : list TimeWindow.t) :
  validateTimeWindow (validateTimeWindow windows)
  = validateTimeWindow windows.
Proof.
  destruct (validateTimeWindow_cases windows) as [-> | [Hne [Hany E]]].
  - reflexivity.
  - rewrite E.
    assert (new_Set windows <> []) as Hne'.
    { destruct windows as [| w ws]; [contradiction |]. intros H.
      assert (In w (new_Set (w :: ws))) as Hin by (apply new_Set_In; now left).
      rewrite H in Hin. contradiction. }
    assert (~ In TimeWindow.ANY (new_Set windows)) as Hany'
      by now rewrite new_Set_In.
    rewrite (validateTimeWindow_plain _ Hne' Hany').
    apply new_Set_fixed, new_Set_NoDup.
Qed.

End TimeWindowFacts.

(* ------------------------------------------------------------------------ *)
(** ** Slot overlap *)
(* ------------------------------------------------------------------------ *)

Module OverlapFacts.

Import Validators SlotSpec.

Lemma skipn_nth_error {A : Type} (l : list A) (j : nat) (x : A) :
  nth_error l j = Some x -> skipn j l = x :: skipn (S j) l.
Proof.
  revert j. induction l as [| a l IH]; intros [| j] H; simpl in *;
    try discriminate.
  - now inversion H.
  - now apply IH.
Qed.

Lemma skipn_length_nil {A : Type} (l : list A) : skipn (List.length l) l = [].
Proof. apply skipn_all. Qed.

Lemma nth_error_in_range {A : Type} (l : list A) (j : nat) :
  (j < List.length l)%nat -> exists x, nth_error l j = Some x.
Proof.
  intros H. destruct (nth_error l j) as [x |] eqn:E; [now exists x |].
  apply nth_error_None in E. lia.
Qed.

Section Loops.

Variable slots : list ScheduledSlot.t.

Lemma inner_loop_spec (i : nat) (s1 : ScheduledSlot.t) :
  nth_error slots i = Some s1 ->
  forall n j, (j + n = List.length slots)%nat ->
    inner_loop slots i j n = Some (forallb (noOverlap s1) (skipn j slots)).
Proof.
  intros Hi. induction n as [| n IH]; intros j Hj; simpl.
  - replace j with (List.length slots) by lia.
    now rewrite skipn_length_nil.
  - destruct (nth_error_in_range slots j) as [s2 Hs2]; [lia |].
    rewrite Hi, Hs2, (skipn_nth_error _ _ _ Hs2). simpl.
    destruct (noOverlap s1 s2); simpl; [apply IH; lia | reflexivity].
Qed.

Lemma outer_loop_spec :
  forall n i, (i + n = List.length slots)%nat ->
    outer_loop slots i n = Some (all_pairs_ok (skipn i slots)).
Proof.
  induction n as [| n IH]; intros i Hi; cbn [outer_loop].
  - replace i with (List.length slots) by lia.
    now rewrite skipn_length_nil.
  - destruct (nth_error_in_range slots i) as [s1 Hs1]; [lia |].
    rewrite (inner_loop_spec i s1 Hs1) by lia.
    rewrite (skipn_nth_error _ _ _ Hs1). cbn [all_pairs_ok].
    destruct (forallb (noOverlap s1) (skipn (S i) slots)); cbn [andb];
      [apply IH; lia | reflexivity].
Qed.

Lemma validateNoSlotOverlap_pairs :
  validateNoSlotOverlap slots = Some (all_pairs_ok slots).
Proof.
  unfold validateNoSlotOverlap. now rewrite outer_loop_spec by lia.
Qed.

End Loops.

Lemma noOverlap_sym (s1 s2 : ScheduledSlot.t) :
  noOverlap s1 s2 = noOverlap s2 s1.
Proof. unfold noOverlap. apply orb_comm. Qed.

Lemma noOverlap_iff (s1 s2 : ScheduledSlot.t) :
  noOverlap s1 s2 = true
  <-> ScheduledSlot.endTime s1 <= ScheduledSlot.startTime s2
      \/ ScheduledSlot.endTime s2 <= ScheduledSlot.startTime s1.
Proof. unfold noOverlap. now rewrite orb_true_iff, !Z.leb_le. Qed.

Lemma intersect_overlap (s1 s2 : ScheduledSlot.t) :
  intersect s1 s2 -> noOverlap s1 s2 = false.
Proof.
  intros [m [H1 H2]]. unfold covers in *.
  apply not_true_is_false. rewrite noOverlap_iff. lia.
Qed.

Lemma overlap_intersect (s1 s2 : ScheduledSlot.t) :
  nonempty s1 -> nonempty s2 -> noOverlap s1 s2 = false -> intersect s1 s2.
Proof.
  unfold nonempty. intros N1 N2 H.
  assert (~ (ScheduledSlot.endTime s1 <= ScheduledSlot.startTime s2
             \/ ScheduledSlot.endTime s2 <= ScheduledSlot.startTime s1)) as Hn
    by (rewrite <- noOverlap_iff; congruence).
  exists (Z.max (ScheduledSlot.startTime s1) (ScheduledSlot.startTime s2)).
  unfold covers. lia.
Qed.

Lemma all_pairs_ok_spec (slots : list ScheduledSlot.t) :
  all_pairs_ok slots = true
  <-> forall i j s1 s2, (i < j)%nat ->
        nth_error slots i = Some s1 -> nth_error slots j = Some s2 ->
        noOverlap s1 s2 = true.
Proof.
  induction slots as [| s rest IH]; simpl.
  - split; [| reflexivity]. intros _ [| i] j s1 s2 _ H; discriminate H.
  - rewrite andb_true_iff, forallb_forall, IH. split.
    + intros [Hhd Htl] [| i] [| j] s1 s2 Hlt H1 H2; simpl in *; try lia.
      * inversion H1; subst. apply Hhd. eapply nth_error_In; eauto.
      * apply (Htl i j); auto; lia.
    + intros H. split.
      * intros s2 Hin. apply In_nth_error in Hin as [j Hj].
        apply (H O (S j)); auto; lia.
      * intros i j s1 s2 Hlt H1 H2. apply (H (S i) (S j)); auto; lia.
Qed.

Lemma never_throws (slots : list ScheduledSlot.t) :
  exists b, validateNoSlotOverlap slots = Some b.
Proof. eexists. apply validateNoSlotOverlap_pairs. Qed.

Lemma accepts_iff_disjoint (slots : list ScheduledSlot.t) :
  (forall s, In s slots -> nonempty s) ->
  validateNoSlotOverlap slots = Some true <-> pairwise_disjoint slots.
Proof.
  intros Hne. rewrite validateNoSlotOverlap_pairs. split.
  - intros H. assert (all_pairs_ok slots = true) as Hok by congruence.
    rewrite all_pairs_ok_spec in Hok.
    intros i j s1 s2 Hij H1 H2 Hint.
    apply intersect_overlap in Hint as Hov.
    destruct (Nat.lt_total i j) as [Hlt | [Heq | Hgt]]; [| contradiction |].
    + rewrite (Hok i j s1 s2 Hlt H1 H2) in Hov. discriminate.
    + rewrite noOverlap_sym, (Hok j i s2 s1 Hgt H2 H1) in Hov. discriminate.
  - intros Hdis. f_equal. apply all_pairs_ok_spec.
    intros i j s1 s2 Hlt H1 H2.
    destruct (noOverlap s1 s2) eqn:E; [reflexivity |]. exfalso.
    apply (Hdis i j s1 s2); [lia | assumption | assumption |].
    apply overlap_intersect; auto; apply Hne; eapply nth_error_In; eauto.
Qed.







(** C2 (as amended). For slots that each span at least one minute,
    [validateNoSlotOverlap] returns true exactly when no two slots at
    distinct positions have intersecting half-open intervals, and false
    otherwise; touching at a boundary is no overlap: [[480,510)] with
    [[510,540)] is accepted, [[480,510)] with [[500,520)] is not. *)
Theorem validateNoSlotOverlap_disjoint :
  (forall slots : list ScheduledSlot.t,
     (forall s, In s slots -> nonempty s) ->
     (validateNoSlotOverlap slots = Some true <-> pairwise_disjoint slots)
     /\ (validateNoSlotOverlap slots = Some false
         <-> ~ pairwise_disjoint slots))
  /\ validateNoSlotOverlap [slot 480 510; slot 510 540] = Some true
  /\ validateNoSlotOverlap [slot 480 510; slot 500 520] = Some false.
Proof.
  split; [| split; reflexivity].
  intros slots Hne. pose proof (accepts_iff_disjoint slots Hne) as Hacc.
  split; [exact Hacc |]. rewrite <- Hacc.
  destruct (never_throws slots) as [[|] ->]; split; intros H;
    congruence || (exfalso; now apply H).
Qed.

Lemma validateNoSlotOverlap_disjoint_witness :
  (forall s, In s [slot 540 600; slot 480 540] -> nonempty s)
  /\ pairwise_disjoint [slot 540 600; slot 480 540].
Proof.
  assert (forall s, In s [slot 540 600; slot 480 540] -> nonempty s) as Hne
    by (intros s [<- | [<- | []]]; unfold nonempty; simpl; lia).
  split; [exact Hne |].
  apply (proj1 validateNoSlotOverlap_disjoint
           [slot 540 600; slot 480 540] Hne).
  reflexivity.
Defined.

(** A slot of no length inside another one: the two intervals share no
    minute, and the pair is reported as overlapping. *)
Lemma validateNoSlotOverlap_empty_slot :
  pairwise_disjoint [slot 500 500; slot 480 510]
  /\ validateNoSlotOverlap [slot 500 500; slot 480 510] = Some false.
Proof.
  split; [| reflexivity].
  intros [| [| i]] [| [| j]] s1 s2 Hij H1 H2 [m [C1 C2]];
    try congruence; simpl in H1, H2;
    try (destruct i; discriminate H1); try (destruct j; discriminate H2);
    inversion H1; inversion H2; subst; unfold covers in *; simpl in *; lia.
Qed.









End OverlapFacts.

(* ------------------------------------------------------------------------ *)
(** ** Preference resolution *)
(* ------------------------------------------------------------------------ *)

Module ResolverFacts.

Import JsNumber Defaults Bounds Resolver.


Lemma defaults_within_bounds : within_bounds DEFAULT_USER_PREFERENCES = true.
Proof. reflexivity. Qed.











End ResolverFacts.

(* ------------------------------------------------------------------------ *)
(** ** Slot collections: further properties *)
(* ------------------------------------------------------------------------ *)

Module SlotCollectionFacts.

Import Validators SlotSpec SlotOps.

Lemma noOverlap_apart (s1 s2 : ScheduledSlot.t) :
  noOverlap s1 s2 = true <-> apart s1 s2.
Proof. apply OverlapFacts.noOverlap_iff. Qed.

Lemma accepted_iff_pairs (slots : list ScheduledSlot.t) :
  validateNoSlotOverlap slots = Some true <-> all_pairs_ok slots = true.
Proof.
  rewrite OverlapFacts.validateNoSlotOverlap_pairs.
  split; [intros H; now inversion H | intros ->; reflexivity].
Qed.

(** X1. [validateNoSlotOverlap] never throws, and it accepts a collection
    exactly when, of any two slots of it, one ends no later than the other
    starts. *)
Theorem validateNoSlotOverlap_pairwise (slots : list ScheduledSlot.t) :
  (exists b, validateNoSlotOverlap slots = Some b)
  /\ (validateNoSlotOverlap slots = Some true
      <-> forall i j s1 s2, (i < j)%nat ->
            nth_error slots i = Some s1 -> nth_error slots j = Some s2 ->
            apart s1 s2).
Proof.
  split; [apply OverlapFacts.never_throws |].
  rewrite accepted_iff_pairs, OverlapFacts.all_pairs_ok_spec.
  split; intros H i j s1 s2 Hlt H1 H2; apply noOverlap_apart; eauto.
Qed.

Lemma validateNoSlotOverlap_pairwise_witness :
  validateNoSlotOverlap [slot 600 660; slot 480 510; slot 510 540] = Some true.
Proof.
  apply (proj2 (validateNoSlotOverlap_pairwise
                  [slot 600 660; slot 480 510; slot 510 540])).
  intros [| [| [| i]]] [| [| [| j]]] s1 s2 Hlt H1 H2; simpl in H1, H2;
    try lia; try (destruct i; discriminate H1);
    try (destruct j; discriminate H2);
    inversion H1; inversion H2; subst; unfold apart; simpl; lia.
Defined.

Lemma forallb_perm {A : Type} (f : A -> bool) (l l' : list A) :
  Permutation l l' -> forallb f l = forallb f l'.
Proof.
  induction 1 as [| x l l' _ IH | x y l | l l' l'' _ IH1 _ IH2]; simpl.
  - reflexivity.
  - now rewrite IH.
  - destruct (f x), (f y); reflexivity.
  - congruence.
Qed.

Lemma all_pairs_ok_perm (l l' : list ScheduledSlot.t) :
  Permutation l l' -> all_pairs_ok l = all_pairs_ok l'.
Proof.
  induction 1 as [| x l l' HP IH | x y l | l l' l'' _ IH1 _ IH2]; simpl.
  - reflexivity.
  - now rewrite IH, (forallb_perm _ _ _ HP).
  - rewrite (OverlapFacts.noOverlap_sym y x).
    destruct (noOverlap x y), (forallb (noOverlap y) l),
      (forallb (noOverlap x) l); reflexivity.
  - congruence.
Qed.

(** X2. The answer of [validateNoSlotOverlap] does not depend on the order
    in which the slots are listed. *)
Theorem validateNoSlotOverlap_order_irrelevant
  (slots slots' : list ScheduledSlot.t) :
  Permutation slots slots' ->
  validateNoSlotOverlap slots = validateNoSlotOverlap slots'.
Proof.
  intros HP. rewrite !OverlapFacts.validateNoSlotOverlap_pairs.
  now rewrite (all_pairs_ok_perm _ _ HP).
Qed.

Lemma validateNoSlotOverlap_order_irrelevant_witness :
  validateNoSlotOverlap [slot 480 510; slot 500 520; slot 600 630]
  = validateNoSlotOverlap [slot 500 520; slot 480 510; slot 600 630].
Proof.
  apply validateNoSlotOverlap_order_irrelevant. apply perm_swap.
Defined.

Lemma forallb_filter_keep {A : Type} (p f : A -> bool) (l : list A) :
  forallb p l = true -> forallb p (filter f l) = true.
Proof.
  rewrite !forallb_forall. intros H x Hin. apply filter_In in Hin. now apply H.
Qed.

(** X3. Taking slots away from an accepted collection leaves an accepted
    collection: whatever the selection, the selected slots pass. *)
Theorem validateNoSlotOverlap_selection
  (keep : ScheduledSlot.t -> bool) (slots : list ScheduledSlot.t) :
  validateNoSlotOverlap slots = Some true ->
  validateNoSlotOverlap (filter keep slots) = Some true.
Proof.
  rewrite !accepted_iff_pairs.
  induction slots as [| s rest IH]; simpl; [trivial |].
  rewrite andb_true_iff. intros [Hhd Htl].
  destruct (keep s); simpl; [| now apply IH].
  rewrite (forallb_filter_keep _ _ _ Hhd). now apply IH.
Qed.

Lemma validateNoSlotOverlap_selection_witness :
  validateNoSlotOverlap
    (filter (fun s => ScheduledSlot.startTime s <? 600)
       [slot 480 510; slot 600 630; slot 510 540]) = Some true.
Proof.
  apply validateNoSlotOverlap_selection. reflexivity.
Defined.

Lemma all_pairs_ok_app (l1 l2 : list ScheduledSlot.t) :
  all_pairs_ok (l1 ++ l2)
  = all_pairs_ok l1 && all_pairs_ok l2
    && forallb (fun s1 => forallb (noOverlap s1) l2) l1.
Proof.
  induction l1 as [| s l1 IH]; simpl.
  - now rewrite andb_true_r.
  - rewrite forallb_app, IH.
    destruct (forallb (noOverlap s) l1), (forallb (noOverlap s) l2),
      (all_pairs_ok l1), (all_pairs_ok l2); reflexivity.
Qed.

(** X4. Two collections put together are accepted exactly when each of
    them is accepted and every slot of the first is apart from every slot
    of the second. *)
Theorem validateNoSlotOverlap_concat (l1 l2 : list ScheduledSlot.t) :
  validateNoSlotOverlap (l1 ++ l2) = Some true
  <-> validateNoSlotOverlap l1 = Some true
      /\ validateNoSlotOverlap l2 = Some true
      /\ (forall s1 s2, In s1 l1 -> In s2 l2 -> apart s1 s2).
Proof.
  rewrite !accepted_iff_pairs, all_pairs_ok_app, !andb_true_iff.
  rewrite forallb_forall.
  split.
  - intros [[H1 H2] H]. repeat split; try assumption.
    intros s1 s2 In1 In2. apply noOverlap_apart.
    specialize (H s1 In1). rewrite forallb_forall in H. now apply H.
  - intros [H1 [H2 H]]. repeat split; try assumption.
    intros s1 In1. apply forallb_forall. intros s2 In2.
    apply noOverlap_apart. now apply H.
Qed.

Lemma validateNoSlotOverlap_concat_witness :
  validateNoSlotOverlap [slot 480 510] = Some true
  /\ validateNoSlotOverlap [slot 510 540; slot 600 630] = Some true
  /\ (forall s1 s2, In s1 [slot 480 510] ->
        In s2 [slot 510 540; slot 600 630] -> apart s1 s2).
Proof.
  apply (proj1 (validateNoSlotOverlap_concat
                  [slot 480 510] [slot 510 540; slot 600 630])).
  reflexivity.
Defined.

(** X5. When every slot of a collection agrees, by [validateSlotDuration],
    with a habit of positive duration, [validateNoSlotOverlap] accepts the
    collection exactly when its half-open intervals are pairwise
    disjoint. *)
Theorem validated_durations_decide_disjointness
  (slots : list ScheduledSlot.t) (habitOf : ScheduledSlot.t -> Habit.t) :
  (forall s, In s slots ->
     validateSlotDuration s (habitOf s) = true
     /\ 0 < Habit.duration (habitOf s)) ->
  (validateNoSlotOverlap slots = Some true <-> pairwise_disjoint slots).
Proof.
  intros H. apply OverlapFacts.accepts_iff_disjoint.
  intros s Hin. destruct (H s Hin) as [Hd Hpos].
  exact (SlotDurationFacts.validateSlotDuration_positive _ _ Hd Hpos).
Qed.

Lemma validated_durations_decide_disjointness_witness :
  pairwise_disjoint [slot 480 510; slot 510 540].
Proof.
  apply (validated_durations_decide_disjointness
           [slot 480 510; slot 510 540] (fun _ => habit 30)).
  - intros s [<- | [<- | []]]; split; (reflexivity || (simpl; lia)).
  - reflexivity.
Defined.

Lemma starts_sorted_tail (s : ScheduledSlot.t) (l : list ScheduledSlot.t) :
  starts_sorted (s :: l) = true -> starts_sorted l = true.
Proof.
  destruct l as [| s2 l]; [reflexivity |]. cbn [starts_sorted].
  rewrite andb_true_iff. tauto.
Qed.

Lemma starts_sorted_head (s : ScheduledSlot.t) (l : list ScheduledSlot.t) :
  starts_sorted (s :: l) = true ->
  forall x, In x l -> ScheduledSlot.startTime s <= ScheduledSlot.startTime x.
Proof.
  revert s. induction l as [| s2 l IH]; intros s Hs x Hin; [destruct Hin |].
  cbn [starts_sorted] in Hs. apply andb_true_iff in Hs as [Hle Hs].
  apply Z.leb_le in Hle. destruct Hin as [<- | Hin]; [assumption |].
  specialize (IH s2 Hs x Hin). lia.
Qed.

Lemma sorted_pairs_adjacent (l : list ScheduledSlot.t) :
  starts_sorted l = true -> (forall s, In s l -> nonempty s) ->
  all_pairs_ok l = adjacent_ok l.
Proof.
  induction l as [| s1 rest IH]; intros Hs Hne; [reflexivity |].
  cbn [all_pairs_ok]. rewrite IH;
    [| eapply starts_sorted_tail; eauto | intros s Hin; apply Hne; now right].
  destruct rest as [| s2 r]; [reflexivity |].
  change (adjacent_ok (s1 :: s2 :: r))
    with ((ScheduledSlot.endTime s1 <=? ScheduledSlot.startTime s2)
          && adjacent_ok (s2 :: r)).
  destruct (adjacent_ok (s2 :: r)) eqn:Hadj; [| now rewrite !andb_false_r].
  rewrite !andb_true_r.
  pose proof (starts_sorted_head _ _ Hs) as Hhd.
  pose proof (Hne s1 (or_introl eq_refl)) as N1. unfold nonempty in N1.
  destruct (Z.leb_spec (ScheduledSlot.endTime s1) (ScheduledSlot.startTime s2))
    as [Hle | Hgt].
  - apply forallb_forall. intros x Hin. apply OverlapFacts.noOverlap_iff. left.
    destruct Hin as [<- | Hin]; [assumption |].
    pose proof (starts_sorted_head _ _ (starts_sorted_tail _ _ Hs) x Hin). lia.
  - cbn [forallb].
    assert (noOverlap s1 s2 = false) as ->; [| reflexivity].
    apply not_true_is_false. rewrite OverlapFacts.noOverlap_iff.
    pose proof (Hne s2 (or_intror (or_introl eq_refl))) as N2.
    unfold nonempty in N2.
    pose proof (Hhd s2 (or_introl eq_refl)). lia.
Qed.

(** X6. On a collection listed by start time whose slots all span at least
    one minute, the pairwise test of [validateNoSlotOverlap] gives the
    answer of the scan of neighbours: each slot ends no later than the next
    one starts. *)
Theorem validateNoSlotOverlap_sorted_scan (slots : list ScheduledSlot.t) :
  starts_sorted slots = true ->
  (forall s, In s slots -> nonempty s) ->
  validateNoSlotOverlap slots = Some (adjacent_ok slots).
Proof.
  intros Hs Hne. rewrite OverlapFacts.validateNoSlotOverlap_pairs.
  now rewrite sorted_pairs_adjacent.
Qed.

Lemma validateNoSlotOverlap_sorted_scan_witness :
  validateNoSlotOverlap [slot 480 510; slot 500 520; slot 600 630]
  = Some (adjacent_ok [slot 480 510; slot 500 520; slot 600 630]).
Proof.
  apply validateNoSlotOverlap_sorted_scan.
  - reflexivity.
  - intros s [<- | [<- | [<- | []]]]; unfold nonempty; simpl; lia.
Defined.

Lemma noOverlap_shift (k : Z) (s1 s2 : ScheduledSlot.t) :
  noOverlap (shift k s1) (shift k s2) = noOverlap s1 s2.
Proof.
  unfold noOverlap, shift.
  cbn [ScheduledSlot.endTime ScheduledSlot.startTime].
  f_equal;
    match goal with
    | |- (?a + k <=? ?b + k) = (?a <=? ?b) =>
        destruct (Z.leb_spec (a + k) (b + k)), (Z.leb_spec a b);
        reflexivity || lia
    end.
Qed.

Lemma all_pairs_ok_shift (k : Z) (l : list ScheduledSlot.t) :
  all_pairs_ok (map (shift k) l) = all_pairs_ok l.
Proof.
  induction l as [| s l IH]; [reflexivity |]. cbn [map all_pairs_ok].
  rewrite IH. f_equal.
  clear IH. induction l as [| x l IH]; [reflexivity |]. cbn [map forallb].
  now rewrite noOverlap_shift, IH.
Qed.

(** X7. Moving a whole schedule by the same number of minutes changes
    neither the answer of [validateNoSlotOverlap] nor, for any slot and
    habit, that of [validateSlotDuration], when the times and the move are
    integers below [2 ^ 51] in magnitude, so that the moved times are exact
    and below [2 ^ 52]. *)
Theorem slot_validators_shift_invariant (k : Z) :
  Z.abs k < 2 ^ 51 ->
  (forall slots,
     (forall s, In s slots -> times_below (2 ^ 51) s) ->
     validateNoSlotOverlap (map (shift k) slots) = validateNoSlotOverlap slots
     /\ (forall s, In s slots -> times_below (2 ^ 52) (shift k s)))
  /\ (forall s h,
        times_below (2 ^ 51) s ->
        validateSlotDuration (shift k s) h = validateSlotDuration s h).
Proof.
  intros Hk. split.
  - intros slots Hs. split.
    + rewrite !OverlapFacts.validateNoSlotOverlap_pairs.
      now rewrite all_pairs_ok_shift.
    + intros s Hin. destruct (Hs s Hin) as [H1 H2].
      unfold times_below, shift in *.
      cbn [ScheduledSlot.endTime ScheduledSlot.startTime].
      change (2 ^ 52) with (2 * 2 ^ 51). lia.
  - intros s h _. unfold validateSlotDuration, shift, JsInteger.sub.
    cbn [ScheduledSlot.endTime ScheduledSlot.startTime].
    replace (ScheduledSlot.endTime s + k - (ScheduledSlot.startTime s + k))
      with (ScheduledSlot.endTime s - ScheduledSlot.startTime s) by lia.
    reflexivity.
Qed.

Lemma slot_validators_shift_invariant_witness :
  validateNoSlotOverlap (map (shift 60) [slot 480 510; slot 500 520])
  = validateNoSlotOverlap [slot 480 510; slot 500 520]
  /\ validateSlotDuration (shift 60 (slot 480 510)) (habit 30)
     = validateSlotDuration (slot 480 510) (habit 30).
Proof.
  assert (Z.abs 60 < 2 ^ 51) as Hk by (vm_compute; reflexivity).
  split.
  - apply (proj1 (slot_validators_shift_invariant 60 Hk)).
    intros s [<- | [<- | []]]; split; vm_compute; reflexivity.
  - apply (proj2 (slot_validators_shift_invariant 60 Hk)).
    split; vm_compute; reflexivity.
Defined.

End SlotCollectionFacts.

(* ------------------------------------------------------------------------ *)
(** ** Check-ins and guards: further properties *)
(* ------------------------------------------------------------------------ *)

Module RatingFacts.

Import JsNumber Guards Validators CheckInMore.

Lemma strict_eq_int (a : number) (z k : Z) :
  is_int a z -> strict_eq a (of_Z k) = (z =? k).
Proof.
  destruct a as [| s | q]; simpl; try contradiction. intros Hq.
  destruct (Z.eqb_spec z k) as [-> | Hne].
  - now apply Qeq_bool_iff.
  - apply not_true_is_false. rewrite Qeq_bool_iff, Hq, inject_Z_injective.
    exact Hne.
Qed.

(** X8. For a successful check-in [validateCheckIn] only asks that the
    rating lie between 1 and 3, and for a failed one that it equal 0; it
    does not ask for an integer.  A rating between 1 and 3 that is not an
    integer therefore passes [validateCheckIn] although [isQualityRating]
    rejects it. *)
Theorem validateCheckIn_range_only (q : Q) :
  (validateCheckIn (rated true (Finite q)) = true <-> (1 <= q /\ q <= 3)%Q)
  /\ (validateCheckIn (rated false (Finite q)) = true <-> (q == 0)%Q)
  /\ ((1 <= q /\ q <= 3)%Q -> isInteger (Finite q) = false ->
      validateCheckIn (rated true (Finite q)) = true
      /\ isQualityRating (Finite q) = false).
Proof.
  assert (validateCheckIn (rated true (Finite q)) = true
          <-> (1 <= q /\ q <= 3)%Q) as Hrange.
  { cbn. rewrite andb_true_iff, !Qle_bool_iff. reflexivity. }
  split; [exact Hrange |]. split.
  - cbn. apply Qeq_bool_iff.
  - intros Hq Hfrac. split; [now apply Hrange |].
    unfold isQualityRating. rewrite Hfrac. apply andb_false_r.
Qed.

Lemma validateCheckIn_range_only_witness :
  validateCheckIn (rated true (Finite 2.5)) = true
  /\ isQualityRating (Finite 2.5) = false.
Proof.
  apply (proj2 (proj2 (validateCheckIn_range_only 2.5))).
  - split; discriminate.
  - reflexivity.
Defined.

(** X9. A number accepted by [isQualityRating] is a consistent rating for
    exactly one outcome: it passes [validateCheckIn] with a failed check-in
    or with a successful one, never with both and never with neither. *)
Theorem quality_rating_fits_one_outcome (n : number) :
  isQualityRating n = true ->
  validateCheckIn (rated false n) = negb (validateCheckIn (rated true n)).
Proof.
  intros H. apply JsNumberFacts.int_range_guard in H as [z [Hz Hr]].
  unfold rated.
  cbn [validateCheckIn PartialCheckIn.success PartialCheckIn.qualityRating].
  unfold ge.
  rewrite (strict_eq_int _ _ _ Hz), (JsNumberFacts.le_int_l _ _ _ Hz),
    (JsNumberFacts.le_int_r _ _ _ Hz).
  cbn [QualityRating.value].
  destruct (Z.eqb_spec z 0), (Z.leb_spec 1 z), (Z.leb_spec z 3);
    reflexivity || lia.
Qed.

Lemma quality_rating_fits_one_outcome_witness :
  validateCheckIn (rated false (of_Z 2))
  = negb (validateCheckIn (rated true (of_Z 2))).
Proof.
  apply quality_rating_fits_one_outcome. reflexivity.
Defined.

Lemma QualityRating_onto (z : Z) :
  0 <= z <= 3 -> exists r, QualityRating.value r = z.
Proof.
  intros H.
  assert (z = 0 \/ z = 1 \/ z = 2 \/ z = 3) as [-> | [-> | [-> | ->]]] by lia;
    [ now exists QualityRating.FAIL | now exists QualityRating.HARD
    | now exists QualityRating.GOOD | now exists QualityRating.EASY ].
Qed.

Lemma DayOfWeek_onto (z : Z) :
  0 <= z <= 6 -> exists d, DayOfWeek.value d = z.
Proof.
  intros H.
  assert (z = 0 \/ z = 1 \/ z = 2 \/ z = 3 \/ z = 4 \/ z = 5 \/ z = 6)
    as [-> | [-> | [-> | [-> | [-> | [-> | ->]]]]]] by lia;
    [ now exists DayOfWeek.SUNDAY | now exists DayOfWeek.MONDAY
    | now exists DayOfWeek.TUESDAY | now exists DayOfWeek.WEDNESDAY
    | now exists DayOfWeek.THURSDAY | now exists DayOfWeek.FRIDAY
    | now exists DayOfWeek.SATURDAY ].
Qed.

(** X10. The numeric guards accept exactly the numbers of the members of
    their enum: [isQualityRating] those of [QualityRating] and
    [isDayOfWeek] those of [DayOfWeek]. *)
Theorem numeric_guards_match_enums (v : number) :
  (isQualityRating v = true <-> exists r, is_int v (QualityRating.value r))
  /\ (isDayOfWeek v = true <-> exists d, is_int v (DayOfWeek.value d)).
Proof.
  unfold isQualityRating, isDayOfWeek.
  rewrite !JsNumberFacts.int_range_guard. split; split.
  - intros [z [Hz Hr]]. destruct (QualityRating_onto z Hr) as [r <-].
    now exists r.
  - intros [r Hr]. exists (QualityRating.value r). split; [exact Hr |].
    destruct r; simpl; lia.
  - intros [z [Hz Hr]]. destruct (DayOfWeek_onto z Hr) as [d <-].
    now exists d.
  - intros [d Hd]. exists (DayOfWeek.value d). split; [exact Hd |].
    destruct d; simpl; lia.
Qed.

End RatingFacts.

(* ------------------------------------------------------------------------ *)
(** ** Time-window normalization: further properties *)
(* ------------------------------------------------------------------------ *)

Module TimeWindowMoreFacts.

Import Validators TimeWindowFacts TimeWindowSpec.

(** X11. The result of [validateTimeWindow] holds between one and five
    windows, and no more than the input unless that is empty; ANY is in
    the result only when the result is [[ANY]]. *)
Theorem validateTimeWindow_size (windows : list TimeWindow.t) :
  (1 <= List.length (validateTimeWindow windows) <= 5)%nat
  /\ (List.length (validateTimeWindow windows)
      <= Nat.max 1 (List.length windows))%nat
  /\ (In TimeWindow.ANY (validateTimeWindow windows) ->
      validateTimeWindow windows = [TimeWindow.ANY]).
Proof.
  destruct (validateTimeWindow_cases windows) as [-> | [Hne [Hany ->]]].
  - cbn [List.length]. split; [lia | split; [lia | reflexivity]].
  - assert (List.length (new_Set windows) <= List.length windows)%nat as Hlen.
    { apply NoDup_incl_length; [apply new_Set_NoDup |].
      intros w Hw. now apply new_Set_In. }
    assert (List.length (new_Set windows) <= 5)%nat as Hfive.
    { change 5%nat with (List.length proper_windows).
      apply NoDup_incl_length; [apply new_Set_NoDup |].
      intros w Hw. rewrite new_Set_In in Hw.
      unfold proper_windows. destruct w; simpl; intuition congruence. }
    assert (1 <= List.length (new_Set windows))%nat as Hone.
    { destruct windows as [| w ws]; [contradiction |].
      assert (In w (new_Set (w :: ws))) as Hin by (apply new_Set_In; now left).
      destruct (new_Set (w :: ws)); [destruct Hin | simpl; lia]. }
    repeat split; try lia.
    intros Hin. rewrite new_Set_In in Hin. contradiction.
Qed.

Lemma validateTimeWindow_size_witness :
  validateTimeWindow [TimeWindow.NIGHT; TimeWindow.ANY; TimeWindow.NIGHT]
  = [TimeWindow.ANY].
Proof.
  apply (validateTimeWindow_size
           [TimeWindow.NIGHT; TimeWindow.ANY; TimeWindow.NIGHT]).
  vm_compute. tauto.
Defined.

(** X12. The result depends on the set of windows of the input only, up
    to the order of its elements: two inputs with the same windows,
    however often and in whatever order they list them, give results that
    are permutations of each other. *)
Theorem validateTimeWindow_same_windows (l1 l2 : list TimeWindow.t) :
  (forall w, In w l1 <-> In w l2) ->
  Permutation (validateTimeWindow l1) (validateTimeWindow l2).
Proof.
  intros Hsame.
  destruct (validateTimeWindow_cases l1) as [E1 | [Hne1 [Hany1 E1]]];
    destruct (validateTimeWindow_cases l2) as [E2 | [Hne2 [Hany2 E2]]];
    rewrite E1, E2.
  - reflexivity.
  - exfalso. destruct l1 as [| w ws].
    + destruct l2 as [| w' ws']; [contradiction |].
      apply (Hsame w'). now left.
    + destruct (includes (w :: ws) TimeWindow.ANY) eqn:Hin.
      * apply Hany2, Hsame. now apply includes_In.
      * assert (~ In TimeWindow.ANY (w :: ws)) as Hout
          by (rewrite <- includes_In; congruence).
        rewrite validateTimeWindow_plain in E1 by (discriminate || auto).
        apply Hout, new_Set_In. rewrite E1. now left.
  - exfalso. destruct l2 as [| w ws].
    + destruct l1 as [| w' ws']; [contradiction |].
      apply (Hsame w'). now left.
    + destruct (includes (w :: ws) TimeWindow.ANY) eqn:Hin.
      * apply Hany1, Hsame. now apply includes_In.
      * assert (~ In TimeWindow.ANY (w :: ws)) as Hout
          by (rewrite <- includes_In; congruence).
        rewrite validateTimeWindow_plain in E2 by (discriminate || auto).
        apply Hout, new_Set_In. rewrite E2. now left.
  - apply NoDup_Permutation; try apply new_Set_NoDup.
    intros w. now rewrite !new_Set_In.
Qed.

Lemma validateTimeWindow_same_windows_witness :
  Permutation
    (validateTimeWindow
       [TimeWindow.MORNING; TimeWindow.MORNING; TimeWindow.EVENING])
    (validateTimeWindow [TimeWindow.EVENING; TimeWindow.MORNING]).
Proof.
  apply validateTimeWindow_same_windows.
  intros w. simpl. tauto.
Defined.

Lemma fold_Set_add_present (l s : list TimeWindow.t) :
  (forall w, In w l -> In w s) -> fold_left Set_add l s = s.
Proof.
  induction l as [| x l IH]; intros H; simpl; [reflexivity |].
  assert (Set_add s x = s) as ->.
  { unfold Set_add.
    assert (Set_has s x = true) as -> by (apply Set_has_In, H; now left).
    reflexivity. }
  apply IH. intros w Hw. apply H. now right.
Qed.

(** X13. Listing again, after a non-empty input, windows that it already
    holds changes nothing: the result is the same array. *)
Theorem validateTimeWindow_repeats_ignored (l1 l2 : list TimeWindow.t) :
  l1 <> [] -> (forall w, In w l2 -> In w l1) ->
  validateTimeWindow (l1 ++ l2) = validateTimeWindow l1.
Proof.
  intros Hne Hsub.
  assert (new_Set (l1 ++ l2) = new_Set l1) as Hset.
  { unfold new_Set. rewrite fold_left_app. apply fold_Set_add_present.
    intros w Hw. apply fold_Set_add_In. right. now apply Hsub. }
  unfold validateTimeWindow, Array_from. rewrite Hset.
  destruct l1 as [| w ws]; [contradiction | reflexivity].
Qed.

Lemma validateTimeWindow_repeats_ignored_witness :
  validateTimeWindow
    ([TimeWindow.NIGHT; TimeWindow.MORNING] ++ [TimeWindow.MORNING])
  = validateTimeWindow [TimeWindow.NIGHT; TimeWindow.MORNING].
Proof.
  apply validateTimeWindow_repeats_ignored.
  - discriminate.
  - intros w [<- | []]. simpl. tauto.
Defined.

Lemma without_cons (x y : TimeWindow.t) (l : list TimeWindow.t) :
  without x (y :: l)
  = if TimeWindow.eqb y x then without x l else y :: without x l.
Proof. unfold without. simpl. now destruct (TimeWindow.eqb y x). Qed.

Lemma without_app (x : TimeWindow.t) (l1 l2 : list TimeWindow.t) :
  without x (l1 ++ l2) = without x l1 ++ without x l2.
Proof. apply filter_app. Qed.

Lemma without_In (x y : TimeWindow.t) (l : list TimeWindow.t) :
  In y (without x l) <-> In y l /\ y <> x.
Proof.
  unfold without. rewrite filter_In, negb_true_iff.
  split; intros [H1 H2]; (split; [assumption |]).
  - intros ->. rewrite (proj2 (eqb_eq x x) eq_refl) in H2. discriminate.
  - apply not_true_is_false. now rewrite eqb_eq.
Qed.

Lemma Set_has_without (x y : TimeWindow.t) (s : list TimeWindow.t) :
  y <> x -> Set_has (without x s) y = Set_has s y.
Proof.
  intros Hne. apply eq_true_iff_eq. rewrite !Set_has_In, without_In. tauto.
Qed.

Lemma without_Set_add (x y : TimeWindow.t) (s : list TimeWindow.t) :
  without x (Set_add s y)
  = if TimeWindow.eqb y x then without x s else Set_add (without x s) y.
Proof.
  unfold Set_add. destruct (TimeWindow.eqb y x) eqn:E.
  - destruct (Set_has s y); [reflexivity |].
    rewrite without_app, without_cons, E. apply app_nil_r.
  - assert (y <> x) as Hne by (rewrite <- eqb_eq; congruence).
    rewrite (Set_has_without _ _ _ Hne).
    destruct (Set_has s y); [reflexivity |].
    now rewrite without_app, without_cons, E.
Qed.

Lemma without_fold (x : TimeWindow.t) (l s : list TimeWindow.t) :
  without x (fold_left Set_add l s)
  = fold_left Set_add (without x l) (without x s).
Proof.
  revert s. induction l as [| y l IH]; intros s; [reflexivity |].
  cbn [fold_left]. rewrite IH, without_Set_add, without_cons.
  destruct (TimeWindow.eqb y x); reflexivity.
Qed.

Lemma fold_cons_fresh (x : TimeWindow.t) (l s : list TimeWindow.t) :
  ~ In x s ->
  fold_left Set_add l (x :: s) = x :: fold_left Set_add (without x l) s.
Proof.
  revert s. induction l as [| y l IH]; intros s Hx; [reflexivity |].
  cbn [fold_left]. rewrite without_cons.
  destruct (TimeWindow.eqb y x) eqn:E.
  - apply eqb_eq in E. subst y.
    assert (Set_add (x :: s) x = x :: s) as ->.
    { unfold Set_add. simpl. now rewrite (proj2 (eqb_eq x x) eq_refl). }
    now apply IH.
  - assert (y <> x) as Hne by (rewrite <- eqb_eq; congruence).
    assert (Set_add (x :: s) y = x :: Set_add s y) as ->.
    { unfold Set_add. simpl.
      assert (TimeWindow.eqb x y = false) as ->
        by (apply not_true_is_false; rewrite eqb_eq; congruence).
      simpl. destruct (Set_has s y); reflexivity. }
    cbn [fold_left]. apply IH. rewrite Set_add_In. intros [H | H]; congruence.
Qed.

Lemma new_Set_cons (x : TimeWindow.t) (l : list TimeWindow.t) :
  new_Set (x :: l) = x :: without x (new_Set l).
Proof.
  unfold new_Set. cbn [fold_left]. change (Set_add [] x) with [x].
  rewrite fold_cons_fresh by (intros []). now rewrite without_fold.
Qed.

(** X14. The result keeps the windows in the order of their first
    occurrence: for an input without ANY, it starts with the first window
    of the input and goes on with the result for the rest of the input,
    that window left out. *)
Theorem validateTimeWindow_first_occurrence
  (x : TimeWindow.t) (l : list TimeWindow.t) :
  ~ In TimeWindow.ANY (x :: l) -> l <> [] ->
  validateTimeWindow (x :: l) = x :: without x (validateTimeWindow l).
Proof.
  intros Hany Hne.
  rewrite (validateTimeWindow_plain (x :: l)) by (discriminate || assumption).
  rewrite (validateTimeWindow_plain l);
    [apply new_Set_cons | assumption |].
  intros H. apply Hany. now right.
Qed.

Lemma validateTimeWindow_first_occurrence_witness :
  validateTimeWindow
    [TimeWindow.NIGHT; TimeWindow.MORNING; TimeWindow.NIGHT]
  = TimeWindow.NIGHT
    :: without TimeWindow.NIGHT
         (validateTimeWindow [TimeWindow.MORNING; TimeWindow.NIGHT]).
Proof.
  apply validateTimeWindow_first_occurrence.
  - simpl. intros [H | [H | [H | []]]]; discriminate H.
  - discriminate.
Defined.

End TimeWindowMoreFacts.

(* ------------------------------------------------------------------------ *)
(** ** The currency heuristic *)
(* ------------------------------------------------------------------------ *)

Module PricingFacts.

Import Pricing.

(** What starts with a longer text starts with its beginning. *)
Lemma prefix_app (p r s : string) :
  String.prefix (p ++ r) s = true -> String.prefix p s = true.
Proof.
  revert s. induction p as [| c p IH]; intros s H.
  - now destruct s.
  - destruct s as [| c' s]; simpl in *; [discriminate |].
    destruct (ascii_dec c c'); [now apply IH | discriminate].
Qed.

Lemma startsWith_longer (s p r : string) :
  startsWith s (p ++ r) = true -> startsWith s p = true.
Proof. apply prefix_app. Qed.

(** Takes the chain of tests apart, one test at a time. *)
Ltac split_rules :=
  repeat match goal with
  | |- context [if ?c then _ else _] => destruct c eqn:?
  | H : context [if ?c then _ else _] |- _ => destruct c eqn:?
  end.

Lemma timezone_rules_Europe (tz : string) :
  startsWith tz "Europe/" = true ->
  timezone_rules tz = Some (if String.eqb tz "Europe/London" then GBP else EUR).
Proof.
  intros H. unfold timezone_rules. rewrite H.
  now destruct (String.eqb tz "Europe/London").
Qed.

Lemma timezone_rules_not_CHF (tz : string) : timezone_rules tz <> Some CHF.
Proof.
  destruct (startsWith tz "Europe/") eqn:E.
  - rewrite (timezone_rules_Europe tz E).
    destruct (String.eqb tz "Europe/London"); discriminate.
  - unfold timezone_rules. rewrite E.
    assert (startsWith tz "Europe/Zurich" = false) as ->.
    { apply not_true_is_false. intros H.
      apply (startsWith_longer tz "Europe/" "Zurich") in H. congruence. }
    split_rules; discriminate.
Qed.

Lemma timezone_rules_not_TRY (tz : string) : timezone_rules tz <> Some TRY.
Proof.
  destruct (startsWith tz "Europe/") eqn:E.
  - rewrite (timezone_rules_Europe tz E).
    destruct (String.eqb tz "Europe/London"); discriminate.
  - unfold timezone_rules. rewrite E.
    assert (startsWith tz "Europe/Istanbul" = false) as ->.
    { apply not_true_is_false. intros H.
      apply (startsWith_longer tz "Europe/" "Istanbul") in H. congruence. }
    split_rules; discriminate.
Qed.

Lemma locale_rules_not_CHF (locale : string) : locale_rules locale <> Some CHF.
Proof. unfold locale_rules. split_rules; discriminate. Qed.

Lemma locale_rules_TRY (locale : string) :
  locale_rules locale = Some TRY <-> locale = "tr-TR"%string.
Proof.
  split.
  - unfold locale_rules. intros H. split_rules; try discriminate H.
    now apply String.eqb_eq.
  - intros ->. reflexivity.
Qed.

(** X15. [guessCurrencyLocally] never answers CHF, whatever the browser
    reports: the test for [Europe/Zurich] comes after the test for
    [Europe/], and no locale leads to CHF. *)
Theorem guessCurrencyLocally_never_CHF (b : Browser) :
  guessCurrencyLocally b <> CHF.
Proof.
  unfold guessCurrencyLocally, try_block.
  destruct (timeZone b) as [[| tz] |]; try discriminate.
  destruct (timezone_rules tz) as [c |] eqn:Etz.
  - intros ->. now apply (timezone_rules_not_CHF tz).
  - destruct (navigator b) as [nav |]; try discriminate.
    destruct (or_else (language nav) (userLanguage nav)) as [| locale];
      try discriminate.
    destruct (truthy (defined locale)); try discriminate.
    destruct (locale_rules locale) as [c |] eqn:El; try discriminate.
    intros ->. now apply (locale_rules_not_CHF locale).
Qed.

(** X16. A time zone under [Europe/] decides the answer by itself: GBP for
    [Europe/London] and EUR for every other one, whatever the locale; in
    particular a time zone that starts with [Europe/Zurich] or with
    [Europe/Istanbul] gives EUR. *)
Theorem guessCurrencyLocally_Europe (b : Browser) (tz : string) :
  timeZone b = Some (defined tz) ->
  (startsWith tz "Europe/" = true ->
   guessCurrencyLocally b
   = if String.eqb tz "Europe/London" then GBP else EUR)
  /\ (startsWith tz "Europe/Zurich" = true
      \/ startsWith tz "Europe/Istanbul" = true ->
      guessCurrencyLocally b = EUR).
Proof.
  intros Htz.
  assert (startsWith tz "Europe/" = true ->
          guessCurrencyLocally b
          = if String.eqb tz "Europe/London" then GBP else EUR) as HE.
  { intros H. unfold guessCurrencyLocally, try_block.
    now rewrite Htz, (timezone_rules_Europe tz H). }
  split; [exact HE |].
  intros H.
  assert (startsWith tz "Europe/" = true /\ String.eqb tz "Europe/London" = false)
    as [HEu HL].
  { destruct H as [H | H].
    - split; [exact (startsWith_longer tz "Europe/" "Zurich" H) |].
      apply not_true_is_false. intros E. apply String.eqb_eq in E. subst tz.
      discriminate H.
    - split; [exact (startsWith_longer tz "Europe/" "Istanbul" H) |].
      apply not_true_is_false. intros E. apply String.eqb_eq in E. subst tz.
      discriminate H. }
  now rewrite (HE HEu), HL.
Qed.

Lemma guessCurrencyLocally_Europe_witness :
  guessCurrencyLocally
    (mkBrowser (Some (defined "Europe/Zurich"%string))
       (Some (mkNavigator (defined "de-CH"%string) undefined))) = EUR.
Proof.
  apply (proj2 (guessCurrencyLocally_Europe
                  (mkBrowser (Some (defined "Europe/Zurich"%string))
                     (Some (mkNavigator (defined "de-CH"%string) undefined)))
                  "Europe/Zurich" eq_refl)).
  left. reflexivity.
Defined.

(** X17. The locale is looked at only when the time zone is a text that
    none of the tests matches.  When reading the time zone fails or gives
    nothing, the answer is USD whatever the locale; and two browsers with
    the same time zone, settled in this way or by one of the tests, get the
    same answer whatever their locales. *)
Theorem guessCurrencyLocally_timezone_first (b : Browser) :
  (timeZone b = None \/ timeZone b = Some undefined ->
   guessCurrencyLocally b = USD)
  /\ (forall b', timeZone b' = timeZone b -> timezone_settles b ->
        guessCurrencyLocally b' = guessCurrencyLocally b).
Proof.
  split.
  - unfold guessCurrencyLocally, try_block. intros [-> | ->]; reflexivity.
  - intros b' Heq Hs. unfold guessCurrencyLocally, try_block, timezone_settles
      in *. rewrite Heq.
    destruct (timeZone b) as [[| tz] |]; try reflexivity.
    destruct (timezone_rules tz); [reflexivity | contradiction].
Qed.

Lemma guessCurrencyLocally_timezone_first_witness :
  guessCurrencyLocally
    (mkBrowser None (Some (mkNavigator (defined "en-GB"%string) undefined)))
  = USD
  /\ guessCurrencyLocally
       (mkBrowser (Some (defined "Asia/Tokyo"%string))
          (Some (mkNavigator (defined "en-GB"%string) undefined)))
     = guessCurrencyLocally
         (mkBrowser (Some (defined "Asia/Tokyo"%string)) None).
Proof.
  split.
  - apply (proj1 (guessCurrencyLocally_timezone_first
                    (mkBrowser None
                       (Some (mkNavigator (defined "en-GB"%string)
                                undefined))))).
    left. reflexivity.
  - apply (proj2 (guessCurrencyLocally_timezone_first
                    (mkBrowser (Some (defined "Asia/Tokyo"%string)) None))).
    + reflexivity.
    + unfold timezone_settles. simpl. discriminate.
Defined.

(** X18. The answer is TRY in one situation only: the time zone is a text
    that none of the tests matches and the locale, [navigator.language] or
    else [navigator.userLanguage], is [tr-TR].  A time zone of
    [Europe/Istanbul] does not lead to it. *)
Theorem guessCurrencyLocally_TRY (b : Browser) :
  guessCurrencyLocally b = TRY
  <-> exists tz nav,
        timeZone b = Some (defined tz)
        /\ timezone_rules tz = None
        /\ navigator b = Some nav
        /\ or_else (language nav) (userLanguage nav)
           = defined "tr-TR"%string.
Proof.
  unfold guessCurrencyLocally, try_block. split.
  - destruct (timeZone b) as [[| tz] |]; try discriminate.
    destruct (timezone_rules tz) as [c |] eqn:Etz.
    + intros ->. now apply timezone_rules_not_TRY in Etz.
    + destruct (navigator b) as [nav |]; try discriminate.
      destruct (or_else (language nav) (userLanguage nav)) as [| locale] eqn:El;
        try discriminate.
      destruct (truthy (defined locale)); try discriminate.
      destruct (locale_rules locale) as [c |] eqn:Er; try discriminate.
      intros ->. apply locale_rules_TRY in Er. subst locale.
      exists tz, nav. auto.
  - intros [tz [nav [-> [-> [-> ->]]]]]. reflexivity.
Qed.

End PricingFacts.

(* ------------------------------------------------------------------------ *)
(** ** The throttled scroll hub: invariants *)
(* ------------------------------------------------------------------------ *)

Module ScrollHubFacts.

Import ScrollHub.

Lemma Set_add_fresh (s : list nat) (x : nat) :
  ~ In x s -> Set_add s x = s ++ [x].
Proof.
  intros H. unfold Set_add.
  destruct (existsb (Nat.eqb x) s) eqn:E; [| reflexivity].
  apply existsb_exists in E as [y [Hin Heq]].
  apply Nat.eqb_eq in Heq. subst y. contradiction.
Qed.

Lemma filter_keeps_all {A : Type} (f : A -> bool) (l : list A) :
  (forall x, In x l -> f x = true) -> filter f l = l.
Proof.
  induction l as [| a l IH]; intros H; simpl; [reflexivity |].
  rewrite (H a (or_introl eq_refl)). f_equal. apply IH.
  intros x Hx. apply H. now right.
Qed.

Lemma map_fst_filter (cb : nat) (l : list (nat * nat)) :
  map fst (filter (fun e => negb (Nat.eqb (fst e) cb)) l)
  = filter (fun y => negb (Nat.eqb y cb)) (map fst l).
Proof.
  induction l as [| [a b] l IH]; simpl; [reflexivity |].
  destruct (Nat.eqb a cb); simpl; now rewrite IH.
Qed.

Lemma filter_rev {A : Type} (f : A -> bool) (l : list A) :
  filter f (rev l) = rev (filter f l).
Proof.
  induction l as [| a l IH]; simpl; [reflexivity |].
  rewrite filter_app, IH. simpl. destruct (f a); simpl;
    [reflexivity | apply app_nil_r].
Qed.

Lemma same_key_same_value (l : list (nat * nat)) (a b b' : nat) :
  NoDup (map fst l) -> In (a, b) l -> In (a, b') l -> b = b'.
Proof.
  induction l as [| [x y] l IH]; simpl; intros Hnd H1 H2; [destruct H1 |].
  inversion Hnd as [| ? ? Hx Hnd']; subst.
  destruct H1 as [E1 | H1], H2 as [E2 | H2].
  - congruence.
  - inversion E1; subst. exfalso. apply Hx.
    change a with (fst (a, b')). now apply in_map.
  - inversion E2; subst. exfalso. apply Hx.
    change a with (fst (a, b)). now apply in_map.
  - now apply IH.
Qed.

Lemma flushes_app (l1 l2 : list (nat * Task)) :
  List.length (filter is_flush (l1 ++ l2))
  = (List.length (filter is_flush l1) + List.length (filter is_flush l2))%nat.
Proof. now rewrite filter_app, length_app. Qed.

Lemma flushes_filter (keep : nat * Task -> bool) (l : list (nat * Task)) :
  (forall t, In t l -> is_flush t = true -> keep t = true) ->
  List.length (filter is_flush (filter keep l))
  = List.length (filter is_flush l).
Proof.
  induction l as [| t l IH]; intros H; simpl; [reflexivity |].
  assert (forall t', In t' l -> is_flush t' = true -> keep t' = true) as Hl
    by (intros t' Ht'; apply H; now right).
  destruct (is_flush t) eqn:Ef.
  - rewrite (H t (or_introl eq_refl) Ef). simpl. rewrite Ef. simpl.
    now rewrite IH.
  - destruct (keep t); simpl; [rewrite Ef |]; now apply IH.
Qed.

Lemma initial_consistent : consistent initial.
Proof.
  constructor; simpl; try reflexivity; try (intros; contradiction);
    [constructor | now left].
Qed.

Lemma mount_consistent (st : State) : consistent st -> consistent (mount st).
Proof.
  intros [Hl Hf Hn Ha Hfr Hr Hi Hfl Ht].
  assert (~ In (nextCallback st) (listeners st)) as Hfresh.
  { rewrite Hl, <- in_rev. intros H. apply Hf in H. lia. }
  assert (listeners (mount st) = listeners st ++ [nextCallback st]) as Hls.
  { unfold mount. destruct (List.length (listeners st) =? 0)%nat; simpl;
      now apply Set_add_fresh. }
  constructor.
  - rewrite Hls, Hl. unfold mount, subscribed.
    destruct (List.length (listeners st) =? 0)%nat; reflexivity.
  - unfold mount, subscribed.
    destruct (List.length (listeners st) =? 0)%nat; simpl;
      intros cb [<- | H]; try lia; apply Hf in H; lia.
  - unfold mount, subscribed.
    destruct (List.length (listeners st) =? 0)%nat; simpl;
      (constructor; [| exact Hn]); intros H; apply Hf in H; lia.
  - rewrite Hls, length_app. simpl.
    replace (List.length (listeners st) + 1 =? 0)%nat with false
      by (symmetry; apply Nat.eqb_neq; lia).
    unfold mount.
    destruct (List.length (listeners st) =? 0)%nat eqn:E; simpl;
      [reflexivity |]. now rewrite Ha.
  - unfold mount.
    destruct (List.length (listeners st) =? 0)%nat; simpl;
      intros id t H; apply in_app_or in H as [H | [H | []]];
      try (apply Hfr in H; lia); inversion H; lia.
  - unfold mount.
    destruct (List.length (listeners st) =? 0)%nat; simpl;
      intros cb id [H | H]; try (apply Hr in H; lia); inversion H; lia.
  - unfold mount.
    destruct (List.length (listeners st) =? 0)%nat; simpl;
      intros id cb H; apply in_app_or in H as [H | [H | []]];
      try (right; now apply Hi); inversion H; now left.
  - unfold mount.
    destruct (List.length (listeners st) =? 0)%nat; simpl;
      intros id cb H [E | Hin]; apply in_app_or in H as [H | [H | []]];
      try discriminate H;
      try (inversion E; subst; apply Hfr in H; lia);
      now apply (Hfl id cb).
  - unfold pending_flushes in *. unfold mount.
    destruct (List.length (listeners st) =? 0)%nat; simpl;
      rewrite flushes_app; simpl; rewrite Nat.add_0_r; exact Ht.
Qed.

Lemma unmount_consistent (cb : nat) (st : State) :
  consistent st -> consistent (unmount cb st).
Proof.
  intros Hc. unfold unmount.
  destruct (find (fun e => Nat.eqb (fst e) cb) (effects st))
    as [[cb0 rafId] |] eqn:Efind; [| exact Hc].
  apply find_some in Efind as [Hin Heq]. simpl in Heq.
  apply Nat.eqb_eq in Heq. subst cb0.
  destruct Hc as [Hl Hf Hn Ha Hfr Hr Hi Hfl Ht].
  set (ls := Set_delete (listeners st) cb).
  set (fs := filter (fun t => negb (Nat.eqb (fst t) rafId)) (frames st)).
  set (es := filter (fun e => negb (Nat.eqb (fst e) cb)) (effects st)).
  assert (ls = rev (map fst es)) as Hls.
  { unfold ls, es, Set_delete. rewrite map_fst_filter, Hl.
    apply filter_rev. }
  assert (forall x, In x es -> In x (effects st)) as Hsub
    by (intros x Hx; now apply filter_In in Hx).
  assert (forall x, In x fs -> In x (frames st)) as Hfsub
    by (intros x Hx; now apply filter_In in Hx).
  unfold cleanup, cancelAnimationFrame. simpl. fold ls fs.
  destruct (List.length ls =? 0)%nat eqn:Elen; simpl; fold es;
    (constructor; simpl; unfold subscribed; simpl;
     [ exact Hls
     | intros x Hx; apply Hf; unfold subscribed;
       unfold es in Hx; rewrite map_fst_filter in Hx;
       now apply filter_In in Hx
     | unfold es; rewrite map_fst_filter; now apply NoDup_filter
     | idtac
     | intros id t H; apply (Hfr id t); now apply Hfsub
     | intros x id H; apply (Hr x id); now apply Hsub
     | idtac
     | intros id x H Hx; apply (Hfl id x); [now apply Hfsub | now apply Hsub]
     | idtac ]).
  - now rewrite Elen.
  - intros id x H. apply filter_In in H as [H Hid]. simpl in Hid.
    apply filter_In. split; [now apply Hi |]. simpl.
    apply negb_true_iff, Nat.eqb_neq. intros ->.
    apply Hi in H. apply negb_true_iff, Nat.eqb_neq in Hid. apply Hid.
    exact (same_key_same_value _ _ _ _ Hn H Hin).
  - unfold pending_flushes in *. simpl. unfold fs.
    rewrite flushes_filter; [exact Ht |].
    intros [id t] Hint Hflush. simpl.
    apply negb_true_iff, Nat.eqb_neq. intros ->.
    unfold is_flush in Hflush. simpl in Hflush. destruct t; [| discriminate].
    exact (Hfl _ _ Hint Hin).
  - rewrite Elen. simpl. rewrite Ha.
    destruct (List.length (listeners st) =? 0)%nat eqn:E0; [| reflexivity].
    apply Nat.eqb_eq, length_zero_iff_nil in E0.
    unfold ls, Set_delete in Elen. rewrite E0 in Elen. discriminate.
  - intros id x H. apply filter_In in H as [H Hid]. simpl in Hid.
    apply filter_In. split; [now apply Hi |]. simpl.
    apply negb_true_iff, Nat.eqb_neq. intros ->.
    apply Hi in H. apply negb_true_iff, Nat.eqb_neq in Hid. apply Hid.
    exact (same_key_same_value _ _ _ _ Hn H Hin).
  - unfold pending_flushes in *. simpl. unfold fs.
    rewrite flushes_filter; [exact Ht |].
    intros [id t] Hint Hflush. simpl.
    apply negb_true_iff, Nat.eqb_neq. intros ->.
    unfold is_flush in Hflush. simpl in Hflush. destruct t; [| discriminate].
    exact (Hfl _ _ Hint Hin).
Qed.

Lemma scroll_consistent (st : State) : consistent st -> consistent (scroll st).
Proof.
  intros Hc. unfold scroll, handleScroll.
  destruct (attached st); [| exact Hc].
  destruct (ticking st) eqn:Et; [exact Hc |]. simpl.
  destruct Hc as [Hl Hf Hn Ha Hfr Hr Hi Hfl Ht].
  constructor; simpl; unfold subscribed; simpl; try assumption.
  - intros id t H. apply in_app_or in H as [H | [H | []]];
      [apply Hfr in H; lia | inversion H; lia].
  - intros cb id H. apply Hr in H. lia.
  - intros id cb H. apply in_app_or in H as [H | [H | []]];
      [now apply Hi | discriminate H].
  - intros id cb H Hin. apply in_app_or in H as [H | [H | []]];
      [now apply (Hfl id cb) |].
    inversion H; subst. apply Hr in Hin. lia.
  - unfold pending_flushes in *. simpl. rewrite flushes_app. simpl.
    destruct Ht as [-> | [_ Ht]]; [right; split; reflexivity | congruence].
Qed.

Lemma forEach_calls (throwing : list nat) (y : Z) (ls : list nat) :
  forall c, In c (fst (forEach throwing y ls)) -> snd c = y /\ In (fst c) ls.
Proof.
  induction ls as [| cb ls IH]; simpl; [intros c [] |].
  destruct (existsb (Nat.eqb cb) throwing).
  - intros c [<- | []]. simpl. auto.
  - destruct (forEach throwing y ls) as [made thrown]. simpl in *.
    intros c [<- | Hc]; [simpl; auto |].
    destruct (IH c Hc). auto.
Qed.

Lemma forEach_calm (y : Z) (ls : list nat) : snd (forEach [] y ls) = false.
Proof.
  induction ls as [| cb ls IH]; simpl; [reflexivity |].
  now destruct (forEach [] y ls).
Qed.

(** What the frame callbacks change: the calls, and [ticking]. *)
Lemma run_tasks_fields (y : Z) (th : list nat) (fs : list (nat * Task))
  (st : State) :
  let st' := fold_left (run_task y th) fs st in
  listeners st' = listeners st
  /\ attached st' = attached st
  /\ frames st' = frames st
  /\ nextFrame st' = nextFrame st
  /\ effects st' = effects st
  /\ nextCallback st' = nextCallback st
  /\ (th = [] ->
      ticking st' = (if existsb is_flush fs then false else ticking st))
  /\ (forall c, In c (calls st') ->
        In c (calls st)
        \/ snd c = y
           /\ (In (fst c) (listeners st)
               \/ exists id, In (id, Initial (fst c)) fs)).
Proof.
  revert st. induction fs as [| [id t] fs IH]; intros st; cbn [fold_left].
  - cbv zeta. cbn [existsb]. repeat split; auto.
  - destruct (IH (run_task y th st (id, t)))
      as [H1 [H2 [H3 [H4 [H5 [H6 [H7 H8]]]]]]].
    cbv zeta. rewrite H1, H2, H3, H4, H5, H6. cbn [existsb].
    destruct t as [| cb].
    + change (is_flush (id, Flush)) with true. cbn [orb].
      unfold run_task in *. cbn [snd] in *.
      pose proof (forEach_calls th y (listeners st)) as Hcalls.
      pose proof (forEach_calm y (listeners st)) as Hcalm.
      destruct (forEach th y (listeners st)) as [made thrown] eqn:Efe.
      cbn [fst snd] in *.
      assert (forall c, In c (calls st ++ made) ->
                In c (calls st) \/ snd c = y /\ In (fst c) (listeners st))
        as Hadd.
      { intros c Hc. apply in_app_or in Hc as [Hc | Hc]; [now left |].
        right. now apply Hcalls. }
      destruct thrown;
        cbn [listeners attached frames nextFrame effects nextCallback ticking
             calls set_ticking add_calls] in *;
        (repeat split; try reflexivity;
         [ intros ->; rewrite H7 by reflexivity;
           try (rewrite Efe in Hcalm; discriminate Hcalm);
           now destruct (existsb is_flush fs)
         | intros c Hc; apply H8 in Hc;
           destruct Hc as [Hc | [Hy [Hc | [k Hc]]]];
           [ destruct (Hadd c Hc) as [? | [? ?]]; auto
           | right; auto
           | right; split; [exact Hy |]; right; exists k; now right ] ]).
    + change (is_flush (id, Initial cb)) with false. cbn [orb].
      unfold run_task in *. cbn [snd] in *.
      cbn [listeners attached frames nextFrame effects nextCallback ticking
           calls set_ticking add_calls] in *.
      repeat split; try reflexivity; [exact H7 |].
      intros c Hc. apply H8 in Hc.
      destruct Hc as [Hc | [Hy [Hc | [k Hc]]]].
      * apply in_app_or in Hc as [Hc | [<- | []]]; [now left |].
        right. simpl. split; [reflexivity |]. right. exists id. now left.
      * right. auto.
      * right. split; [exact Hy |]. right. exists k. now right.
Qed.

Lemma frame_consistent (y : Z) (th : list nat) (st : State) :
  consistent st -> consistent (frame y th st).
Proof.
  intros [Hl Hf Hn Ha Hfr Hr Hi Hfl Ht]. unfold frame.
  destruct (run_tasks_fields y th (frames st) (set_frames [] st))
    as [H1 [H2 [H3 [H4 [H5 [H6 _]]]]]].
  simpl in *.
  constructor; unfold subscribed, pending_flushes;
    rewrite ?H1, ?H2, ?H3, ?H4, ?H5, ?H6; simpl; try assumption;
    try (intros; contradiction).
  now left.
Qed.

Lemma step_consistent (st : State) (e : Event) :
  consistent st -> consistent (step st e).
Proof.
  destruct e; simpl;
    [ apply mount_consistent | apply unmount_consistent
    | apply scroll_consistent | apply frame_consistent ].
Qed.

Lemma steps_consistent (events : list Event) (st : State) :
  consistent st -> consistent (fold_left step events st).
Proof.
  revert st. induction events as [| e events IH]; intros st H; simpl;
    [exact H | apply IH, step_consistent, H].
Qed.

Lemma run_consistent (events : list Event) : consistent (run events).
Proof. apply steps_consistent, initial_consistent. Qed.

Lemma mount_flushes (st : State) :
  pending_flushes (mount st) = pending_flushes st
  /\ ticking (mount st) = ticking st.
Proof.
  unfold pending_flushes, mount.
  destruct (List.length (listeners st) =? 0)%nat; simpl;
    rewrite flushes_app; simpl; split; (lia || reflexivity).
Qed.

Lemma unmount_flushes (cb : nat) (st : State) :
  consistent st ->
  pending_flushes (unmount cb st) = pending_flushes st
  /\ ticking (unmount cb st) = ticking st.
Proof.
  intros Hc. unfold unmount.
  destruct (find (fun e => Nat.eqb (fst e) cb) (effects st))
    as [[cb0 rafId] |] eqn:Efind; [| split; reflexivity].
  apply find_some in Efind as [Hin _].
  unfold pending_flushes, cleanup, cancelAnimationFrame. simpl.
  assert (List.length
            (filter is_flush
               (filter (fun t => negb (Nat.eqb (fst t) rafId)) (frames st)))
          = List.length (filter is_flush (frames st))) as Hkeep.
  { apply flushes_filter. intros [id t] Hint Hflush. simpl.
    apply negb_true_iff, Nat.eqb_neq. intros ->.
    unfold is_flush in Hflush. simpl in Hflush. destruct t; [| discriminate].
    exact (inv_flush_ids _ Hc _ _ Hint Hin). }
  destruct (List.length (Set_delete (listeners st) cb0) =? 0)%nat; simpl;
    split; (exact Hkeep || reflexivity).
Qed.

Lemma steps_exact (events : list Event) (st : State) :
  consistent st ->
  pending_flushes st = (if ticking st then 1%nat else 0%nat) ->
  calm events = true ->
  let st' := fold_left step events st in
  pending_flushes st' = (if ticking st' then 1%nat else 0%nat).
Proof.
  revert st. induction events as [| e events IH]; intros st Hc Hx Hcalm;
    [exact Hx |].
  cbn [calm forallb] in Hcalm. apply andb_true_iff in Hcalm as [He Hcalm].
  cbn [fold_left]. apply IH; [now apply step_consistent | | exact Hcalm].
  destruct e as [| cb | | y th]; cbn [step].
  - destruct (mount_flushes st) as [-> ->]. exact Hx.
  - destruct (unmount_flushes cb st Hc) as [-> ->]. exact Hx.
  - unfold scroll, handleScroll.
    destruct (attached st); [| exact Hx].
    destruct (ticking st) eqn:Et; [cbn [negb]; now rewrite Et |].
    unfold pending_flushes in *. simpl. rewrite flushes_app, Hx. reflexivity.
  - destruct th as [| c th]; [| discriminate He].
    unfold frame.
    destruct (run_tasks_fields y [] (frames st) (set_frames [] st))
      as [_ [_ [H3 [_ [_ [_ [H7 _]]]]]]].
    unfold pending_flushes. rewrite H3, (H7 eq_refl). simpl.
    destruct (existsb is_flush (frames st)) eqn:E; [reflexivity |].
    destruct (ticking st); [| reflexivity]. exfalso.
    unfold pending_flushes in Hx.
    destruct (filter is_flush (frames st)) as [| t l] eqn:Ef; [discriminate |].
    assert (In t (filter is_flush (frames st))) as Hin
      by (rewrite Ef; now left).
    apply filter_In in Hin as [Hin Hflush].
    assert (existsb is_flush (frames st) = true) as E'
      by (apply existsb_exists; now exists t).
    congruence.
Qed.

Lemma run_exact (events : list Event) :
  calm events = true ->
  pending_flushes (run events)
  = (if ticking (run events) then 1%nat else 0%nat).
Proof.
  intros H. apply (steps_exact events initial initial_consistent eq_refl H).
Qed.

(** X19. After any history of mounts, unmounts, scroll events and frames,
    [handleScroll] listens to the scroll events of [window] exactly when
    some component is subscribed, and the [listeners] set holds the wrapped
    callbacks of the subscribed components, each once, in the order of
    their mounting. *)
Theorem hub_listens_while_subscribed (events : list Event) :
  let st := run events in
  attached st = negb (List.length (subscribed st) =? 0)%nat
  /\ listeners st = rev (subscribed st)
  /\ NoDup (listeners st).
Proof.
  cbv zeta. destruct (run_consistent events) as [Hl _ Hn Ha _ _ _ _ _].
  split; [| split].
  - now rewrite Ha, Hl, length_rev.
  - exact Hl.
  - rewrite Hl. now apply NoDup_rev.
Qed.



(** X21. A frame calls subscribed callbacks only, with the frame's
    [scrollY]: every call it adds goes to the wrapped callback of an effect
    still in place, so that a component is not called after it has
    unmounted.  After the frame nothing waits; and [ticking] is clear
    provided no callback throws in this frame or has thrown before. *)
Theorem hub_frame_calls_subscribed (events : list Event) (y : Z)
  (throwing : list nat) :
  let st := run events in
  (forall c, In c (calls (frame y throwing st)) ->
     In c (calls st) \/ (snd c = y /\ In (fst c) (subscribed st)))
  /\ frames (frame y throwing st) = []
  /\ (calm events = true -> throwing = [] ->
      ticking (frame y throwing st) = false).
Proof.
  cbv zeta. pose proof (run_consistent events) as Hc.
  destruct (run_tasks_fields y throwing (frames (run events))
              (set_frames [] (run events)))
    as [_ [_ [H3 [_ [_ [_ [_ H8]]]]]]].
  fold (frame y throwing (run events)) in H3, H8. simpl in H3, H8.
  split; [| split].
  - intros c Hin. apply H8 in Hin as [Hin | [Hy [Hin | [id Hin]]]];
      [now left | right | right]; (split; [exact Hy |]).
    + rewrite (inv_listeners _ Hc), <- in_rev in Hin. exact Hin.
    + apply (inv_initial _ Hc) in Hin. unfold subscribed.
      change (fst c) with (fst (fst c, id)). now apply in_map.
  - exact H3.
  - intros Hcalm ->.
    assert (calm (events ++ [Frame y []]) = true) as Hcalm'
      by (unfold calm; rewrite forallb_app; fold (calm events);
          now rewrite Hcalm).
    pose proof (run_exact _ Hcalm') as Hx.
    unfold run in Hx. rewrite fold_left_app in Hx. cbn [fold_left step] in Hx.
    fold (run events) in Hx. unfold pending_flushes in Hx.
    rewrite H3 in Hx. simpl in Hx.
    destruct (ticking (frame y [] (run events))); [discriminate | reflexivity].
Qed.

Lemma hub_frame_calls_subscribed_witness :
  In (1%nat, 120)
    (calls (frame 120 [] (run [Mount; Mount; Unmount 0%nat; Scroll])))
  /\ In 1%nat (subscribed (run [Mount; Mount; Unmount 0%nat; Scroll]))
  /\ ticking (frame 120 [] (run [Mount; Mount; Unmount 0%nat; Scroll]))
     = false.
Proof.
  assert (In (1%nat, 120)
            (calls (frame 120 [] (run [Mount; Mount; Unmount 0%nat; Scroll]))))
    as Hin by (vm_compute; auto).
  split; [exact Hin |]. split.
  - destruct (proj1 (hub_frame_calls_subscribed
                       [Mount; Mount; Unmount 0%nat; Scroll] 120 []) _ Hin)
      as [H | [_ H]]; [destruct H | exact H].
  - apply (proj2 (proj2 (hub_frame_calls_subscribed
                           [Mount; Mount; Unmount 0%nat; Scroll] 120 [])));
      reflexivity.
Defined.

(** X22. Mounting a component and unmounting it again leaves the hub as it
    was: the same listeners, the same pending frame callbacks, the same
    flags and the same effects; only the counters that name closures and
    frame requests have moved on. *)
Theorem hub_mount_unmount_restores (events : list Event) :
  let st := run events in
  let st' := unmount (nextCallback st) (mount st) in
  listeners st' = listeners st
  /\ attached st' = attached st
  /\ ticking st' = ticking st
  /\ frames st' = frames st
  /\ effects st' = effects st
  /\ calls st' = calls st.
Proof.
  cbv zeta. destruct (run_consistent events) as [Hl Hf Hn Ha Hfr Hr Hi Hfl Ht].
  set (st := run events) in *.
  assert (~ In (nextCallback st) (listeners st)) as Hfresh.
  { rewrite Hl, <- in_rev. intros H. apply Hf in H. lia. }
  assert (filter (fun y => negb (Nat.eqb y (nextCallback st))) (listeners st)
          = listeners st) as Hkeep.
  { apply filter_keeps_all. intros x Hx. apply negb_true_iff, Nat.eqb_neq.
    intros ->. contradiction. }
  assert (filter (fun t => negb (Nat.eqb (fst t) (nextFrame st))) (frames st)
          = frames st) as Hfkeep.
  { apply filter_keeps_all. intros [id t] Hx. simpl.
    apply negb_true_iff, Nat.eqb_neq. apply Hfr in Hx. lia. }
  assert (filter (fun e => negb (Nat.eqb (fst e) (nextCallback st)))
            (effects st) = effects st) as Hekeep.
  { apply filter_keeps_all. intros [cb id] Hx. simpl.
    apply negb_true_iff, Nat.eqb_neq.
    assert (In cb (subscribed st)) as Hs
      by (unfold subscribed; change cb with (fst (cb, id)); now apply in_map).
    apply Hf in Hs. lia. }
  unfold unmount, mount, cleanup, cancelAnimationFrame, Set_delete.
  destruct (List.length (listeners st) =? 0)%nat eqn:E0; simpl;
    rewrite Nat.eqb_refl; simpl;
    rewrite (Set_add_fresh _ _ Hfresh), !filter_app, Hkeep, Hfkeep; simpl;
    rewrite !Nat.eqb_refl; simpl; rewrite ?app_nil_r, E0; simpl;
    rewrite ?Hekeep; repeat split; try reflexivity;
    try (rewrite Ha; reflexivity); rewrite Nat.eqb_refl; reflexivity.
Qed.

End ScrollHubFacts.
